(** * Inline wedding bot: schedule store, dispatcher and polling loop

    A shallow embedding of [src/inline_wedding_bot.py] (class
    [InlineWeddingBot]) and the properties of its schedule store, its
    due-message dispatcher, its polling loop and its handlers.

    Conventions of the embedding.
    - A Python [str] is the list of its code points ([pystr]); [len] is the
      length of that list.  Literals are written as UTF-8 text and decoded
      by [utf8].
    - A timezone-aware [datetime] is the instant it denotes, in microseconds
      since the Unix epoch; a [timedelta] is a number of microseconds.
    - The bot object, the schedule file and everything the process does to
      the outside (HTTP requests, file writes, sleeps) live in a [World];
      what the outside answers is read from an [Env] of oracles.
    - Methods are computations in the monad [M] of state and exceptions.
      Calls to [logger] have no effect on the state and are left out. *)

From Stdlib Require Import String Ascii ZArith NArith Bool Lia Arith List.
From Stdlib Require Import DecimalString DecimalPos DecimalZ.
Import ListNotations.
Open Scope Z_scope.

(* ===================================================================== *)
(** ** Text *)
(* ===================================================================== *)

Definition codepoint := N.
Definition pystr := list codepoint.

(** UTF-8 decoding of a byte sequence, [need] continuation bytes pending. *)
Fixpoint utf8_decode (bs : list N) (need : nat) (acc : N) : pystr :=
  match bs with
  | [] => []
  | b :: bs' =>
      match need with
      | O =>
          if (b <? 128)%N then b :: utf8_decode bs' 0 0%N
          else if (b <? 224)%N then utf8_decode bs' 1 (b - 192)%N
          else if (b <? 240)%N then utf8_decode bs' 2 (b - 224)%N
          else utf8_decode bs' 3 (b - 240)%N
      | S O => (acc * 64 + (b - 128))%N :: utf8_decode bs' 0 0%N
      | S n => utf8_decode bs' n (acc * 64 + (b - 128))%N
      end
  end.

Definition utf8 (s : string) : pystr :=
  utf8_decode (map N_of_ascii (list_ascii_of_string s)) 0 0%N.

Definition newline : pystr := [10%N].

(** The text of a multi-line literal: its lines joined by a line feed. *)
Fixpoint text_of_lines (ls : list string) : pystr :=
  match ls with
  | [] => []
  | [l] => utf8 l
  | l :: rest => utf8 l ++ newline ++ text_of_lines rest
  end.

Fixpoint pystr_eqb (a b : pystr) : bool :=
  match a, b with
  | [], [] => true
  | x :: a', y :: b' => (x =? y)%N && pystr_eqb a' b'
  | _, _ => false
  end.

(** [x in [l1, ..., ln]] for strings. *)
Definition pystr_in (x : pystr) (l : list pystr) : bool :=
  existsb (pystr_eqb x) l.

(** [str(n)] for an integer. *)
Definition str_of_int (n : Z) : pystr :=
  utf8 (NilZero.string_of_int (Z.to_int n)).

(** [s.title()], on ASCII letters; other code points count as uncased. *)
Definition is_upper (c : codepoint) : bool := (65 <=? c)%N && (c <=? 90)%N.
Definition is_lower (c : codepoint) : bool := (97 <=? c)%N && (c <=? 122)%N.

Fixpoint title_from (prev_cased : bool) (s : pystr) : pystr :=
  match s with
  | [] => []
  | c :: s' =>
      if is_lower c then
        (if prev_cased then c else (c - 32)%N) :: title_from true s'
      else if is_upper c then
        (if prev_cased then (c + 32)%N else c) :: title_from true s'
      else c :: title_from false s'
  end.

Definition title (s : pystr) : pystr := title_from false s.

(* ===================================================================== *)
(** ** Time *)
(* ===================================================================== *)

Definition datetime := Z.
Definition timedelta := Z.

Definition microseconds_per_second : Z := 1000000.
Definition seconds (n : Z) : timedelta := n * microseconds_per_second.
Definition days (n : Z) : timedelta := seconds (n * 86400).
Arguments seconds : simpl never.

(** Days from 1970-01-01 to the civil date [y]-[m]-[d]. *)
Definition days_from_civil (y m d : Z) : Z :=
  let y' := if m <=? 2 then y - 1 else y in
  let era := y' / 400 in
  let yoe := y' - era * 400 in
  let mp := (m + 9) mod 12 in
  let doy := (153 * mp + 2) / 5 + d - 1 in
  let doe := yoe * 365 + yoe / 4 - yoe / 100 + doy in
  era * 146097 + doe - 719468.

(** [datetime(y, m, d, hh, mm)]: a naive wall-clock reading. *)
Definition naive_datetime (y m d hh mm : Z) : Z :=
  seconds (days_from_civil y m d * 86400 + hh * 3600 + mm * 60).

(** [pytz.timezone('Asia/Singapore').localize]: Singapore has been at
    UTC+8, without daylight saving, since 1982. *)
Definition singapore_utc_offset : timedelta := seconds (8 * 3600).
Definition singapore_localize (wall : Z) : datetime :=
  wall - singapore_utc_offset.

(** [abs((a - b).total_seconds()) < 60].  [total_seconds] divides the
    microsecond count by 10**6 in floating point; the division is correctly
    rounded and 60.0 is a float, so the comparison with 60 is the exact one
    on microseconds. *)
Definition within_minute (a b : datetime) : bool :=
  Z.abs (a - b) <? seconds 60.

(* ===================================================================== *)
(** ** Data *)
(* ===================================================================== *)

(** A scheduled message is the tuple [(target_date, message_text,
    include_buttons)]. *)
Definition Entry : Type := datetime * pystr * bool.

Definition target_date (e : Entry) : datetime := fst (fst e).
Definition message_text (e : Entry) : pystr := snd (fst e).
Definition include_buttons (e : Entry) : bool := snd e.

(** An inline keyboard: rows of buttons [(text, callback_data)]. *)
Definition Keyboard : Type := list (list (pystr * pystr)).

(** The [chat_id] argument of [send_message]: the integer of an incoming
    message, or the configured group id, a string. *)
Inductive ChatRef : Type :=
| ChatInt (n : Z)
| ChatStr (s : pystr).

Inductive Request : Type :=
| SendMessage (chat_id : ChatRef) (text : pystr)
    (reply_markup : option Keyboard) (reply_to_message_id : option Z)
| AnswerCallbackQuery (callback_query_id : pystr) (text : pystr)
    (show_alert : bool)
| GetUpdates (offset : option Z) (timeout : Z).

Record User : Type := mkUser {
  first_name : option pystr;
  username : option pystr;
  is_bot : option bool }.

Record CallbackQuery : Type := mkCallbackQuery {
  cq_id : pystr;
  cq_data : option pystr;
  cq_from : User }.

Record Message : Type := mkMessage {
  msg_chat_id : Z;
  msg_message_id : Z;
  msg_from : option User;
  msg_text : option pystr;
  msg_new_chat_members : option (list User) }.

Record Update : Type := mkUpdate {
  update_id : Z;
  upd_callback_query : option CallbackQuery;
  upd_message : option Message }.

(** What the remote API answers to a request. *)
Record Body : Type := mkBody {
  body_ok : option bool;
  body_result : option (list Update) }.

Inductive HttpOutcome : Type :=
| ConnectionError
| Timeout
| Response (status_code : Z) (json : option Body).

(** The schedule file [wedding_schedule.pkl]. *)
Inductive FileState : Type :=
| Missing
| Unreadable
| Garbage
| Pickled (schedule : list Entry).

(** What an attempt to write the schedule file does. *)
Inductive WriteOutcome : Type :=
| Written
| WriteFails (residue : FileState).

Inductive Effect : Type :=
| Post (r : Request)
| Save (schedule : list Entry)
| Sleep (secs : Z).

Inductive Exn : Type :=
| KeyError (key : string)
| IndexError
| OSError
| UnpicklingError
| RequestException
| RequestTimeout
| JSONDecodeError.

(** [except requests.exceptions.Timeout] *)
Definition is_timeout (e : Exn) : bool :=
  match e with RequestTimeout => true | _ => false end.

Record World : Type := mkWorld {
  last_update_id : Z;
  member_count : Z;
  scheduled_messages : list Entry;
  schedule_initialized : bool;
  schedule_file : FileState;
  trace : list Effect }.

(** The environment: configuration, the two string builtins whose Unicode
    tables are not reproduced here, and the answers of the outside world,
    indexed by the length of the trace at the time of the call. *)
Record Env : Type := mkEnv {
  group_chat_id : pystr;
  str_lower : pystr -> pystr;
  str_strip : pystr -> pystr;
  http : nat -> HttpOutcome;
  disk_write : nat -> WriteOutcome }.

(* ===================================================================== *)
(** ** The monad of methods *)
(* ===================================================================== *)

Inductive Outcome (A : Type) : Type :=
| Ret (a : A)
| Raise (e : Exn).
Arguments Ret {A} a.
Arguments Raise {A} e.

Definition M (A : Type) : Type := Env -> World -> Outcome A * World.

Definition run {A} (m : M A) (env : Env) (w : World) : Outcome A * World :=
  m env w.

Definition ret {A} (a : A) : M A := fun _ w => (Ret a, w).

Definition bind {A B} (m : M A) (k : A -> M B) : M B :=
  fun env w =>
    match m env w with
    | (Ret a, w') => k a env w'
    | (Raise e, w') => (Raise e, w')
    end.

Definition raise {A} (e : Exn) : M A := fun _ w => (Raise e, w).

(** [try: body / except Exception as e: handler(e)] *)
Definition try_except {A} (body : M A) (handler : Exn -> M A) : M A :=
  fun env w =>
    match body env w with
    | (Ret a, w') => (Ret a, w')
    | (Raise e, w') => handler e env w'
    end.

Definition get : M World := fun _ w => (Ret w, w).
Definition ask : M Env := fun env w => (Ret env, w).
Definition modify (f : World -> World) : M unit := fun _ w => (Ret tt, f w).

Declare Scope monad_scope.
Delimit Scope monad_scope with monad.
Notation "x <- m ;; k" := (bind m (fun x => k))
  (at level 100, m at next level, right associativity) : monad_scope.
Notation "m ;; k" := (bind m (fun _ => k))
  (at level 100, right associativity) : monad_scope.
Open Scope monad_scope.

(** [for x in l: body(x)] *)
Fixpoint for_each {A} (l : list A) (body : A -> M unit) : M unit :=
  match l with
  | [] => ret tt
  | x :: rest => body x ;; for_each rest body
  end.

(** [d[key]] on an optional field. *)
Definition subscript {A} (key : string) (field : option A) : M A :=
  match field with
  | Some a => ret a
  | None => raise (KeyError key)
  end.

(** [d.get(key, default)] *)
Definition get_default {A} (field : option A) (default : A) : A :=
  match field with
  | Some a => a
  | None => default
  end.

(** Field updates of the world. *)
Definition set_last_update_id (n : Z) (w : World) : World :=
  mkWorld n (member_count w) (scheduled_messages w) (schedule_initialized w)
    (schedule_file w) (trace w).
Definition set_member_count (n : Z) (w : World) : World :=
  mkWorld (last_update_id w) n (scheduled_messages w) (schedule_initialized w)
    (schedule_file w) (trace w).
Definition set_scheduled_messages (l : list Entry) (w : World) : World :=
  mkWorld (last_update_id w) (member_count w) l (schedule_initialized w)
    (schedule_file w) (trace w).
Definition set_schedule_initialized (b : bool) (w : World) : World :=
  mkWorld (last_update_id w) (member_count w) (scheduled_messages w) b
    (schedule_file w) (trace w).
Definition set_schedule_file (f : FileState) (w : World) : World :=
  mkWorld (last_update_id w) (member_count w) (scheduled_messages w)
    (schedule_initialized w) f (trace w).
Definition emit (e : Effect) (w : World) : World :=
  mkWorld (last_update_id w) (member_count w) (scheduled_messages w)
    (schedule_initialized w) (schedule_file w) (trace w ++ [e]).

(* ===================================================================== *)
(** ** Outbound calls *)
(* ===================================================================== *)

(** [requests.post] / [requests.get]: the request goes on the trace and the
    oracle says what comes back. *)
Definition requests_call (r : Request) : M (Z * option Body) :=
  env <- ask ;;
  w <- get ;;
  modify (emit (Post r)) ;;
  match http env (length (trace w)) with
  | ConnectionError => raise RequestException
  | Timeout => raise RequestTimeout
  | Response status body => ret (status, body)
  end.

(** [response.json()] *)
Definition response_json (body : option Body) : M Body :=
  match body with
  | Some b => ret b
  | None => raise JSONDecodeError
  end.

(** [if reply_to_message_id:] an absent or zero id is not passed on. *)
Definition truthy_id (i : option Z) : option Z :=
  match i with
  | Some n => if n =? 0 then None else Some n
  | None => None
  end.

Definition send_message (chat_id : ChatRef) (text : pystr)
    (reply_markup : option Keyboard) (reply_to_message_id : option Z)
    : M bool :=
  try_except
    (resp <- requests_call
       (SendMessage chat_id text reply_markup (truthy_id reply_to_message_id)) ;;
     if fst resp =? 200 then
       (b <- response_json (snd resp) ;; ret (get_default (body_ok b) false))
     else ret false)
    (fun _ => ret false).

Definition ellipsis : pystr := utf8 "...".

Definition answer_callback_query (callback_query_id : pystr) (text : pystr)
    (show_alert : bool) : M bool :=
  try_except
    (let text :=
       if (200 <? length text)%nat then firstn 197 text ++ ellipsis
       else text in
     resp <- requests_call
       (AnswerCallbackQuery callback_query_id text show_alert) ;;
     if fst resp =? 200 then
       (result <- response_json (snd resp) ;;
        if get_default (body_ok result) false then ret true else ret false)
     else ret false)
    (fun _ => ret false).

(** [if offset:] a zero offset is not passed on. *)
Definition get_updates (offset : Z) (timeout : Z) : M (list Update) :=
  try_except
    (resp <- requests_call (GetUpdates (truthy_id (Some offset)) timeout) ;;
     if fst resp =? 200 then
       (result <- response_json (snd resp) ;;
        ok <- subscript "ok" (body_ok result) ;;
        if ok then subscript "result" (body_result result) else ret [])
     else ret [])
    (fun e => if is_timeout e then ret [] else ret []).

(* ===================================================================== *)
(** ** The schedule store *)
(* ===================================================================== *)

(** [os.path.exists(self.schedule_file)] *)
Definition path_exists (f : FileState) : bool :=
  match f with
  | Missing => false
  | _ => true
  end.

(** [with open(self.schedule_file, 'rb') as f: schedule = pickle.load(f)] *)
Definition open_and_unpickle : M (list Entry) :=
  w <- get ;;
  match schedule_file w with
  | Missing => raise OSError
  | Unreadable => raise OSError
  | Garbage => raise UnpicklingError
  | Pickled schedule => ret schedule
  end.

(** The [try] block either returns the schedule ([Some]) or falls through to
    the final [return []] ([None]), as does the [except] clause. *)
Definition load_schedule : M (list Entry) :=
  returned <- try_except
    (w <- get ;;
     if path_exists (schedule_file w) then
       (schedule <- open_and_unpickle ;; ret (Some schedule))
     else ret None)
    (fun _ => ret None) ;;
  match returned with
  | Some schedule => ret schedule
  | None => ret []
  end.

(** [with open(self.schedule_file, 'wb') as f: pickle.dump(..., f)] *)
Definition open_and_pickle (schedule : list Entry) : M unit :=
  env <- ask ;;
  w <- get ;;
  modify (emit (Save schedule)) ;;
  match disk_write env (length (trace w)) with
  | Written => modify (set_schedule_file (Pickled schedule))
  | WriteFails residue => modify (set_schedule_file residue) ;; raise OSError
  end.

Definition save_schedule : M unit :=
  try_except
    (w <- get ;; open_and_pickle (scheduled_messages w))
    (fun _ => ret tt).

(** [wedding_date = self.singapore_tz.localize(datetime(2025, 9, 27, 8, 0))] *)
Definition wedding_date : datetime :=
  singapore_localize (naive_datetime 2025 9 27 8 0).

Definition expected_dates : list datetime :=
  [ wedding_date - days 7; wedding_date - days 1; wedding_date ].

(** The inner loop of [check_if_schedule_exists]. *)
Fixpoint expected_date_exists (expected_date : datetime)
    (existing_dates : list datetime) : bool :=
  match existing_dates with
  | [] => false
  | existing_date :: rest =>
      if within_minute expected_date existing_date then true
      else expected_date_exists expected_date rest
  end.

(** The outer loop of [check_if_schedule_exists]. *)
Fixpoint any_expected_date_exists (expected : list datetime)
    (existing_dates : list datetime) : bool :=
  match expected with
  | [] => false
  | expected_date :: rest =>
      if expected_date_exists expected_date existing_dates then true
      else any_expected_date_exists rest existing_dates
  end.

Definition check_if_schedule_exists : M bool :=
  w <- get ;;
  if (length (scheduled_messages w) =? 0)%nat then ret false
  else
    let existing_dates := map target_date (scheduled_messages w) in
    ret (any_expected_date_exists expected_dates existing_dates).

(** The inner loop of [remove_duplicate_schedules]: is [date1] within one
    minute of an entry of [unique_messages]? *)
Fixpoint is_duplicate (date1 : datetime) (unique_messages : list Entry) : bool :=
  match unique_messages with
  | [] => false
  | (date2, _, _) :: rest =>
      if within_minute date1 date2 then true else is_duplicate date1 rest
  end.

(** The outer loop of [remove_duplicate_schedules], [unique_messages] being
    the list built so far. *)
Fixpoint collect_unique (pending unique_messages : list Entry) : list Entry :=
  match pending with
  | [] => unique_messages
  | (date1, msg1, buttons1) :: rest =>
      if is_duplicate date1 unique_messages
      then collect_unique rest unique_messages
      else collect_unique rest (unique_messages ++ [(date1, msg1, buttons1)])
  end.

Definition remove_duplicate_schedules : M unit :=
  w <- get ;;
  match scheduled_messages w with
  | [] => ret tt
  | _ =>
      let unique_messages := collect_unique (scheduled_messages w) [] in
      if (length unique_messages =? length (scheduled_messages w))%nat
      then ret tt
      else modify (set_scheduled_messages unique_messages) ;; save_schedule
  end.

(** The duplicate check of [add_scheduled_message]. *)
Fixpoint already_scheduled (target : datetime) (existing : list Entry) : bool :=
  match existing with
  | [] => false
  | (existing_date, _, _) :: rest =>
      if within_minute target existing_date then true
      else already_scheduled target rest
  end.

Definition add_scheduled_message (target : datetime) (text : pystr)
    (buttons : bool) : M unit :=
  w <- get ;;
  if already_scheduled target (scheduled_messages w) then ret tt
  else
    modify (set_scheduled_messages (scheduled_messages w ++ [(target, text, buttons)])) ;;
    save_schedule.

(** [InlineWeddingBot.__init__], for a configured environment. *)
Definition init : M unit :=
  modify (set_last_update_id 0) ;;
  modify (set_member_count 0) ;;
  schedule <- load_schedule ;;
  modify (set_scheduled_messages schedule) ;;
  remove_duplicate_schedules ;;
  exists_already <- check_if_schedule_exists ;;
  modify (set_schedule_initialized exists_already).

(* ===================================================================== *)
(** ** Fixed texts *)
(* ===================================================================== *)

Open Scope string_scope.

(** The rows of [self.welcome_keyboard]. *)
Definition welcome_keyboard : Keyboard :=
  [ [ (utf8 "🏛️ Venue Info", utf8 "venue");
      (utf8 "📅 Schedule", utf8 "schedule") ];
    [ (utf8 "🚇 Transport", utf8 "transport");
      (utf8 "🍽️ Menu", utf8 "menu") ];
    [ (utf8 "📞 Contacts", utf8 "contact");
      (utf8 "ℹ️ Important Note", utf8 "help") ] ].

Definition content_venue : pystr :=
  text_of_lines
    [ "🏛️ Park Royal Marina";
      "📍 6 Raffles Blvd, Singapore 039594, Level 5 Atrium Ballroom";
      "🚗 Marina Square parking (coupons available)" ].

Definition content_schedule : pystr :=
  text_of_lines
    [ "📅 27 Sep 2025";
      "🍸 6:30 PM Cocktail";
      "🍽️ 7:15 PM To be Seated";
      "🌙 10:40 PM End";
      "🎉 11:00 PM Afterparty @ OSG Suntec" ].

Definition content_transport : pystr :=
  text_of_lines
    [ "🚇 MRT: Esplanade Station (4 min walk)";
      "🚗 Taxi: Park Royal Marina Hotel Lobby";
      "🅿️ Marina Square parking (coupons available)";
      "📍 Afterparty @OSG Suntec: Postal Code 038983";
      "" ].

Definition content_menu : pystr :=
  text_of_lines
    [ "🍽️ 8-Course Chinese Menu / Halal Menu";
      "🥂 Cocktail: Canapés + free flow drinks";
      "🍾 Drinks: Free flow beer, wine, and soft drinks" ].

Definition content_contact : pystr :=
  text_of_lines
    [ "📞 CONTACTS";
      "👰 Jaz: @jaztww";
      "🤵 Paul: @ywp_88";
      "👧 Ching Yee (OIC): @chingyljy";
      "👦 Samuel (2IC): @butterandink";
      "👦 Zen (Emcee): @zenzcky" ].

Definition content_help : pystr :=
  text_of_lines
    [ "8️⃣8️⃣8️⃣ Bring $2 or $10 notes for lucky draw! The more you bring, the more ballots you have ;) ";
      "" ].

(** The dictionary [content] of [get_info_content]. *)
Definition content : list (pystr * pystr) :=
  [ (utf8 "venue", content_venue);
    (utf8 "schedule", content_schedule);
    (utf8 "transport", content_transport);
    (utf8 "menu", content_menu);
    (utf8 "contact", content_contact);
    (utf8 "help", content_help) ].

Fixpoint dict_lookup (key : pystr) (d : list (pystr * pystr)) : option pystr :=
  match d with
  | [] => None
  | (k, v) :: rest => if pystr_eqb key k then Some v else dict_lookup key rest
  end.

Definition get_info_content (info_type : pystr) : pystr :=
  get_default (dict_lookup info_type content) (utf8 "Information not available.").

(** [["venue", "schedule", "transport", "menu", "contact", "help"]] *)
Definition topics : list pystr :=
  [ utf8 "venue"; utf8 "schedule"; utf8 "transport"; utf8 "menu";
    utf8 "contact"; utf8 "help" ].

(** [welcome_text] of [handle_text_command]. *)
Definition start_welcome_text : pystr :=
  text_of_lines
    [ "Welcome to Paul and Jaz's wedding group! 👋";
      "";
      "Here's all the wedding information for **Paul & Jaz's Wedding** on **27 September 2025**.";
      "";
      "💡 Click any button below for instant information!";
      "";
      "" ].

(** [welcome_text] of [process_new_members]. *)
Definition milestone_welcome_text : pystr :=
  text_of_lines
    [ "🎉 **Welcome to Paul and Jaz's wedding group!**";
      "";
      "We're so excited to celebrate with all of you on **27 September 2025**.";
      "";
      "💡 Click any button below for wedding information:";
      "";
      "*Use `/start` anytime to see these buttons again!*" ].

Definition week_message : pystr :=
  text_of_lines
    [ "📅 **One Week Until Paul & Jaz's Wedding!** 🎉";
      "";
      "The big day is almost here! Don't forget:";
      "• Confirm your attendance";
      "• Check the venue location";
      "• Plan your outfit";
      "• Arrange transportation";
      "";
      "Use /start for all wedding details! 💒" ].

Definition day_message : pystr :=
  text_of_lines
    [ "🎊 **Tomorrow is Paul & Jaz's Wedding Day!** 💒";
      "";
      "Final reminders:";
      "• Cocktail reception starts at 6:30 PM";
      "• Venue: Park Royal Marina, Level 5 Atrium Ballroom";
      "• Arrive early for photos";
      "• Afterparty at OSG Suntec at 11 PM";
      "";
      "See you tomorrow! ✨" ].

Definition morning_message : pystr :=
  text_of_lines
    [ "🎉 **IT'S WEDDING DAY!** 💒✨";
      "";
      "Paul & Jaz's special day is here!";
      "";
      "📍 Park Royal Marina, Level 5 Atrium Ballroom";
      "⏰ 6:30 PM - Cocktail Reception";
      "🎊 Ready to celebrate? See you there!";
      "";
      "Use the buttons below for last-minute details:" ].

Close Scope string_scope.

(* ===================================================================== *)
(** ** The dispatcher and the seeding of the reminders *)
(* ===================================================================== *)

(** The first loop of [check_scheduled_messages], from index [i] on: sends
    what is due and returns [messages_to_remove]. *)
Fixpoint send_due (current_time : datetime) (i : nat) (msgs : list Entry)
    : M (list nat) :=
  match msgs with
  | [] => ret []
  | (date, text, buttons) :: rest =>
      if date <=? current_time then
        let keyboard := if buttons then Some welcome_keyboard else None in
        env <- ask ;;
        send_message (ChatStr (group_chat_id env)) text keyboard None ;;
        to_remove <- send_due current_time (S i) rest ;;
        ret (i :: to_remove)
      else send_due current_time (S i) rest
  end.

(** [self.scheduled_messages.pop(i)] *)
Definition pop_scheduled (i : nat) : M unit :=
  w <- get ;;
  if (i <? length (scheduled_messages w))%nat then
    modify (set_scheduled_messages
              (firstn i (scheduled_messages w) ++ skipn (S i) (scheduled_messages w)))
  else raise IndexError.

(** [current_time], which the source reads from the clock, is an argument. *)
Definition check_scheduled_messages (current_time : datetime) : M unit :=
  w <- get ;;
  messages_to_remove <- send_due current_time 0 (scheduled_messages w) ;;
  for_each (rev messages_to_remove) pop_scheduled ;;
  match messages_to_remove with
  | [] => ret tt
  | _ => save_schedule
  end.

Definition schedule_wedding_reminders : M unit :=
  w <- get ;;
  if schedule_initialized w then ret tt
  else
    let one_week_before := wedding_date - days 7 in
    let one_day_before := wedding_date - days 1 in
    let wedding_morning := wedding_date in
    add_scheduled_message one_week_before week_message false ;;
    add_scheduled_message one_day_before day_message false ;;
    add_scheduled_message wedding_morning morning_message true.

(* ===================================================================== *)
(** ** Handlers *)
(* ===================================================================== *)

Definition handle_callback_query (callback_query : CallbackQuery) : M unit :=
  let query_id := cq_id callback_query in
  data <- subscript "data" (cq_data callback_query) ;;
  if pystr_in data topics then
    let content := get_info_content data in
    success <- answer_callback_query query_id content true ;;
    if success then ret tt
    else
      answer_callback_query query_id
        (utf8 "✅ " ++ title data ++ utf8 " info sent!") false ;;
      ret tt
  else
    answer_callback_query query_id (utf8 "Unknown option") false ;;
    ret tt.

(** [text.startswith('/')] and [text[1:]] *)
Definition command_of (text : pystr) : option pystr :=
  match text with
  | c :: command => if (c =? 47)%N then Some command else None
  | [] => None
  end.

Definition handle_text_command (message : Message) : M unit :=
  env <- ask ;;
  let text := str_strip env (str_lower env (get_default (msg_text message) [])) in
  let chat_id := msg_chat_id message in
  let message_id := msg_message_id message in
  user <- subscript "from" (msg_from message) ;;
  if negb (pystr_eqb (str_of_int chat_id) (group_chat_id env)) then ret tt
  else
    match command_of text with
    | None => ret tt
    | Some command =>
        if pystr_in command topics then
          send_message (ChatInt chat_id) (get_info_content command) None
            (Some message_id) ;;
          ret tt
        else if pystr_eqb command (utf8 "start") then
          send_message (ChatInt chat_id) start_welcome_text
            (Some welcome_keyboard) (Some message_id) ;;
          ret tt
        else ret tt
    end.

(** The body of the loop of [process_new_members]. *)
Definition welcome_member (member : User) : M unit :=
  if get_default (is_bot member) false then ret tt
  else
    w <- get ;;
    modify (set_member_count (member_count w + 1)) ;;
    if (member_count w + 1) mod 25 =? 0 then
      env <- ask ;;
      send_message (ChatStr (group_chat_id env)) milestone_welcome_text
        (Some welcome_keyboard) None ;;
      ret tt
    else ret tt.

Definition process_new_members (message : Message) : M unit :=
  match msg_new_chat_members message with
  | Some new_members => for_each new_members welcome_member
  | None => ret tt
  end.

(* ===================================================================== *)
(** ** The main loop *)
(* ===================================================================== *)

Definition sleep (secs : Z) : M unit := modify (emit (Sleep secs)).

(** The body of [for update in updates]. *)
Definition handle_update (update : Update) : M unit :=
  modify (set_last_update_id (update_id update)) ;;
  match upd_callback_query update with
  | Some callback_query => handle_callback_query callback_query
  | None =>
      match upd_message update with
      | Some message =>
          env <- ask ;;
          let chat_id := msg_chat_id message in
          if pystr_eqb (str_of_int chat_id) (group_chat_id env) then
            process_new_members message ;;
            match msg_text message with
            | Some _ => handle_text_command message
            | None => ret tt
            end
          else ret tt
      | None => ret tt
      end
  end.

(** What follows the poll inside the [try] of [run_forever]. *)
Definition process_updates (updates : list Update) (current_time : datetime)
    : M unit :=
  for_each updates handle_update ;;
  check_scheduled_messages current_time ;;
  sleep 1.

(** One turn of [while True] in [run_forever]. *)
Definition loop_iteration (current_time : datetime) : M unit :=
  try_except
    (w <- get ;;
     updates <- get_updates (last_update_id w + 1) 30 ;;
     process_updates updates current_time)
    (fun _ => sleep 5).

(** A process start: [InlineWeddingBot()] and [run_forever] up to its loop. *)
Definition startup : M unit :=
  init ;;
  schedule_wedding_reminders.

(* ===================================================================== *)
(** ** Vocabulary of the statements *)
(* ===================================================================== *)

(** What [load_schedule] hands back for each state of the file. *)
Definition stored_schedule (f : FileState) : list Entry :=
  match f with
  | Pickled schedule => schedule
  | Missing | Unreadable | Garbage => []
  end.

(** The world after a call of [save_schedule]. *)
Definition after_save (env : Env) (w : World) : World :=
  set_schedule_file
    match disk_write env (length (trace w)) with
    | Written => Pickled (scheduled_messages w)
    | WriteFails residue => residue
    end
    (emit (Save (scheduled_messages w)) w).

(** The value [send_message] returns for each answer of the API. *)
Definition send_succeeds (o : HttpOutcome) : bool :=
  match o with
  | Response status (Some body) =>
      if status =? 200 then get_default (body_ok body) false else false
  | _ => false
  end.

(** The text [answer_callback_query] puts in its request. *)
Definition popup_text (text : pystr) : pystr :=
  if (200 <? length text)%nat then firstn 197 text ++ ellipsis else text.

(** Two instants at least 60 seconds apart. *)
Definition far_apart (a b : datetime) : Prop := seconds 60 <= Z.abs (a - b).

(** [d] is at least 60 seconds from every entry of [l]. *)
Definition far_from (d : datetime) (l : list Entry) : Prop :=
  Forall (fun x => far_apart d (target_date x)) l.

(** Every entry is at least 60 seconds from every later one. *)
Fixpoint separated (l : list Entry) : Prop :=
  match l with
  | [] => True
  | e :: rest => far_from (target_date e) rest /\ separated rest
  end.

(** The invariant of the store, by positions: any two entries at distinct
    positions have trigger times at least 60 seconds apart. *)
Definition pairwise_separated (l : list Entry) : Prop :=
  forall i j a b,
    i <> j -> nth_error l i = Some a -> nth_error l j = Some b ->
    seconds 60 <= Z.abs (target_date a - target_date b).

(** The world after [remove_duplicate_schedules]. *)
Definition after_dedup (env : Env) (w : World) : World :=
  let unique_messages := collect_unique (scheduled_messages w) [] in
  if (length unique_messages =? length (scheduled_messages w))%nat then w
  else after_save env (set_scheduled_messages unique_messages w).

(** The store [remove_duplicate_schedules] leaves when it is called on the
    store [l]. *)
Definition deduplicated (env : Env) (w : World) (l : list Entry) : list Entry :=
  scheduled_messages
    (snd (run remove_duplicate_schedules env (set_scheduled_messages l w))).

(** Concrete surroundings for the examples: an API that accepts every
    request, a disk that takes every write, a process that has not started. *)
Definition api_ok : HttpOutcome := Response 200 (Some (mkBody (Some true) None)).

Definition example_env : Env :=
  mkEnv (utf8 "-1001234") (fun s => s) (fun s => s) (fun _ => api_ok)
    (fun _ => Written).

Definition fresh_world : World := mkWorld 0 0 [] false Missing [].

Definition entry_at (secs : Z) : Entry := (seconds secs, utf8 "note", false).

(** Five entries, those at indices 1 and 3 within a minute of the first. *)
Definition clustered_world : World :=
  set_scheduled_messages
    [ entry_at 0; entry_at 30; entry_at 100; entry_at 59; entry_at 200 ]
    fresh_world.

Definition spaced_world : World :=
  set_scheduled_messages [ entry_at 0; entry_at 60; entry_at 200 ] fresh_world.

(** Several effects in a row. *)
Definition emit_all (effects : list Effect) (w : World) : World :=
  fold_left (fun v e => emit e v) effects w.

(** The test of [check_scheduled_messages]: [current_time >= target_date]. *)
Definition due (current_time : datetime) (e : Entry) : bool :=
  target_date e <=? current_time.

Definition not_due (current_time : datetime) (e : Entry) : bool :=
  current_time <? target_date e.

(** The request by which the dispatcher sends an entry to the group. *)
Definition dispatch (env : Env) (e : Entry) : Request :=
  SendMessage (ChatStr (group_chat_id env)) (message_text e)
    (if include_buttons e then Some welcome_keyboard else None) None.

(** The positions, counted from [i], of the entries that are due. *)
Fixpoint due_indices (current_time : datetime) (i : nat) (l : list Entry)
    : list nat :=
  match l with
  | [] => []
  | e :: rest =>
      if due current_time e then i :: due_indices current_time (S i) rest
      else due_indices current_time (S i) rest
  end.

(** The world after [check_scheduled_messages]. *)
Definition after_tick (env : Env) (current_time : datetime) (w : World) : World :=
  let sent :=
    emit_all (map (fun e => Post (dispatch env e))
                (filter (due current_time) (scheduled_messages w))) w in
  let popped :=
    set_scheduled_messages
      (filter (not_due current_time) (scheduled_messages w)) sent in
  if existsb (due current_time) (scheduled_messages w)
  then after_save env popped
  else popped.

(** [small] is [big] with some entries left out, the others in place. *)
Inductive subsequence {A : Type} : list A -> list A -> Prop :=
| subsequence_nil : subsequence [] []
| subsequence_keep x small big :
    subsequence small big -> subsequence (x :: small) (x :: big)
| subsequence_skip x small big :
    subsequence small big -> subsequence small (x :: big).

(** A new member who is not a bot: [not member.get('is_bot', False)]. *)
Definition is_human (member : User) : bool :=
  negb (get_default (is_bot member) false).

(** The number of non-bot members announced by a message, by a batch. *)
Definition joined (message : Message) : Z :=
  Z.of_nat (length (filter is_human
                      (get_default (msg_new_chat_members message) []))).

Definition total_joined (messages : list Message) : Z :=
  fold_right (fun message n => joined message + n) 0 messages.

(** The milestone broadcast: an unprompted post to the group, with the menu. *)
Definition broadcast (env : Env) : Request :=
  SendMessage (ChatStr (group_chat_id env)) milestone_welcome_text
    (Some welcome_keyboard) None.

(** The world after the loop body of [process_new_members]. *)
Definition after_member (env : Env) (member : User) (w : World) : World :=
  if is_human member then
    let counted := set_member_count (member_count w + 1) w in
    if (member_count w + 1) mod 25 =? 0
    then emit (Post (broadcast env)) counted
    else counted
  else w.

(** A message announcing one new member, not a bot. *)
Definition join_message (name : string) : Message :=
  mkMessage (-1001234) 7 None None
    (Some [mkUser (Some (utf8 name)) None (Some false)]).

(** The counter and the trace after a run of joins. *)
Definition counted_from (env : Env) (w w' : World) (n : Z) : Prop :=
  member_count w' = member_count w + n /\
  trace w' =
    trace w
    ++ repeat (Post (broadcast env))
         (Z.to_nat (member_count w' / 25 - member_count w / 25)).

(** The world after [add_scheduled_message]. *)
Definition after_add (env : Env) (target : datetime) (text : pystr)
    (buttons : bool) (w : World) : World :=
  if already_scheduled target (scheduled_messages w) then w
  else after_save env
         (set_scheduled_messages
            (scheduled_messages w ++ [(target, text, buttons)]) w).

(** The three reminders, as [schedule_wedding_reminders] adds them. *)
Definition week_reminder : Entry := (wedding_date - days 7, week_message, false).
Definition day_reminder : Entry := (wedding_date - days 1, day_message, false).
Definition morning_reminder : Entry := (wedding_date, morning_message, true).

(** The world after [schedule_wedding_reminders]. *)
Definition after_seed (env : Env) (w : World) : World :=
  if schedule_initialized w then w
  else
    after_add env wedding_date morning_message true
      (after_add env (wedding_date - days 1) day_message false
         (after_add env (wedding_date - days 7) week_message false w)).

(** The value of [check_if_schedule_exists] on a store. *)
Definition schedule_exists (msgs : list Entry) : bool :=
  if (length msgs =? 0)%nat then false
  else any_expected_date_exists expected_dates (map target_date msgs).

(** The world after [__init__]. *)
Definition after_init (env : Env) (w : World) : World :=
  let loaded :=
    set_scheduled_messages (stored_schedule (schedule_file w))
      (set_member_count 0 (set_last_update_id 0 w)) in
  let cleaned := after_dedup env loaded in
  set_schedule_initialized (schedule_exists (scheduled_messages cleaned)) cleaned.

(** The stores the process can hold: the one the constructor builds, an
    empty one, the result of [remove_duplicate_schedules] on any store
    whatever, and what the mutators of the store make of such stores. *)
Inductive reachable (env : Env) : World -> Prop :=
| reach_empty w :
    scheduled_messages w = [] -> reachable env w
| reach_init w w' :
    run init env w = (Ret tt, w') -> reachable env w'
| reach_dedup w w' :
    run remove_duplicate_schedules env w = (Ret tt, w') -> reachable env w'
| reach_add w w' target text buttons :
    reachable env w ->
    run (add_scheduled_message target text buttons) env w = (Ret tt, w') ->
    reachable env w'
| reach_seed w w' :
    reachable env w ->
    run schedule_wedding_reminders env w = (Ret tt, w') ->
    reachable env w'
| reach_tick w w' current_time :
    reachable env w ->
    run (check_scheduled_messages current_time) env w = (Ret tt, w') ->
    reachable env w'.

(** An entry counts as a wedding reminder when its trigger time is within a
    minute of one of the three expected dates. *)
Definition is_wedding_entry (e : Entry) : bool :=
  existsb (fun expected => within_minute expected (target_date e)) expected_dates.

Definition wedding_entries (l : list Entry) : list Entry :=
  filter is_wedding_entry l.

(** The file says what the memory holds. *)
Definition synced (w : World) : Prop :=
  stored_schedule (schedule_file w) = scheduled_messages w.

(** A process about to start on the file the dispatcher leaves once the
    one-week reminder has gone out. *)
Definition week_reminder_gone : World :=
  mkWorld 0 0 [] false (Pickled [day_reminder; morning_reminder]) [].

(** The updates [get_updates] returns for each answer of the API. *)
Definition polled (o : HttpOutcome) : list Update :=
  match o with
  | Response status (Some body) =>
      if status =? 200 then
        match body_ok body, body_result body with
        | Some true, Some result => result
        | _, _ => []
        end
      else []
  | _ => []
  end.

(** The updates on which the handler raises: a callback query without
    [data], and a text message of the group without [from]. *)
Definition update_raises (env : Env) (update : Update) : bool :=
  match upd_callback_query update with
  | Some callback_query =>
      match cq_data callback_query with
      | None => true
      | Some _ => false
      end
  | None =>
      match upd_message update with
      | Some message =>
          pystr_eqb (str_of_int (msg_chat_id message)) (group_chat_id env)
          && match msg_text message, msg_from message with
             | Some _, None => true
             | _, _ => false
             end
      | None => false
      end
  end.

(** Where the cursor stands after the [for] loop over a batch: at the first
    update whose handler raises, at the last update when none does. *)
Fixpoint cursor_after (env : Env) (updates : list Update) (cursor : Z) : Z :=
  match updates with
  | [] => cursor
  | update :: rest =>
      if update_raises env update then update_id update
      else cursor_after env rest (update_id update)
  end.

(** A button press asking for the venue, and one that carries no [data]. *)
Definition press (id : Z) (data : option pystr) : Update :=
  mkUpdate id
    (Some (mkCallbackQuery (utf8 "q") data
             (mkUser (Some (utf8 "Ann")) None (Some false))))
    None.

Definition batch_with_bare_press : list Update :=
  [ press 5 None; press 6 (Some (utf8 "venue")); press 9 (Some (utf8 "venue")) ].

Definition batch_of_presses : list Update :=
  [ press 5 (Some (utf8 "venue")); press 6 (Some (utf8 "menu"));
    press 9 (Some (utf8 "help")) ].

(** An API that answers every request with the given batch. *)
Definition env_polling (batch : list Update) : Env :=
  mkEnv (utf8 "-1001234") (fun s => s) (fun s => s)
    (fun _ => Response 200 (Some (mkBody (Some true) (Some batch))))
    (fun _ => Written).

Definition world_at_cursor (cursor : Z) : World :=
  set_last_update_id cursor fresh_world.

(** A store with a single entry, one second before noon of the day. *)
Definition noon : datetime := wedding_date + seconds (4 * 3600).

Definition one_due_world : World :=
  set_scheduled_messages [(noon - seconds 1, utf8 "note", true)] fresh_world.

(** A text of 250 characters. *)
Definition long_text : pystr := repeat 120%N 250.

(** Twenty-four messages, each announcing one new member who is not a bot. *)
Definition twenty_four_joins : list Message := repeat (join_message "Bea") 24.

(** The schedule -- in memory, on disk, and its flag -- is as it was. *)
Definition schedule_untouched (w w' : World) : Prop :=
  scheduled_messages w' = scheduled_messages w /\
  schedule_file w' = schedule_file w /\
  schedule_initialized w' = schedule_initialized w.

(** A text message of a group member. *)
Definition text_message (chat : Z) (text : string) : Message :=
  mkMessage chat 7 (Some (mkUser (Some (utf8 "Ann")) None (Some false)))
    (Some (utf8 text)) None.

(** What a process does, from its start to the end of a first tick after
    the wedding morning, when it finds no schedule: three saves while
    seeding, the three reminders, and the save of the emptied store. *)
Definition seed_and_send_all (env : Env) : list Effect :=
  [ Save [week_reminder];
    Save [week_reminder; day_reminder];
    Save [week_reminder; day_reminder; morning_reminder];
    Post (dispatch env week_reminder);
    Post (dispatch env day_reminder);
    Post (dispatch env morning_reminder);
    Save [] ].

(* ===================================================================== *)
(** * Properties *)
(* ===================================================================== *)

(** ** Running computations *)

Section RunEquations.
Context {A B : Type}.
Variables (env : Env) (w : World).

Lemma run_ret (a : A) : run (ret a) env w = (Ret a, w).
Proof. reflexivity. Qed.

Lemma run_raise (e : Exn) : run (raise e : M A) env w = (Raise e, w).
Proof. reflexivity. Qed.

Lemma run_bind (m : M A) (k : A -> M B) :
  run (bind m k) env w =
  match run m env w with
  | (Ret a, w') => run (k a) env w'
  | (Raise e, w') => (Raise e, w')
  end.
Proof. reflexivity. Qed.

Lemma run_bind_ret (m : M A) (k : A -> M B) (a : A) (w' : World) :
  run m env w = (Ret a, w') -> run (bind m k) env w = run (k a) env w'.
Proof. intros H. rewrite run_bind, H. reflexivity. Qed.

Lemma run_bind_raise (m : M A) (k : A -> M B) (e : Exn) (w' : World) :
  run m env w = (Raise e, w') -> run (bind m k) env w = (Raise e, w').
Proof. intros H. rewrite run_bind, H. reflexivity. Qed.

Lemma run_try_except (body : M A) (handler : Exn -> M A) :
  run (try_except body handler) env w =
  match run body env w with
  | (Ret a, w') => (Ret a, w')
  | (Raise e, w') => run (handler e) env w'
  end.
Proof. reflexivity. Qed.
End RunEquations.

Lemma run_get env w : run get env w = (Ret w, w).
Proof. reflexivity. Qed.

Lemma run_ask env w : run ask env w = (Ret env, w).
Proof. reflexivity. Qed.

Lemma run_modify f env w : run (modify f) env w = (Ret tt, f w).
Proof. reflexivity. Qed.

Lemma run_for_each_app {A} (l1 l2 : list A) (body : A -> M unit) env w w1 :
  run (for_each l1 body) env w = (Ret tt, w1) ->
  run (for_each (l1 ++ l2) body) env w = run (for_each l2 body) env w1.
Proof.
  revert w. induction l1 as [|x l1 IH]; intros w H; simpl in *.
  - rewrite run_ret in H. congruence.
  - rewrite run_bind in *. destruct (run (body x) env w) as [[[]|e] w'].
    + now apply IH.
    + discriminate.
Qed.

(** One statement of a method body: open the bind, use the equation of the
    call. *)
Ltac call equation := rewrite run_bind, equation.

(** A handler that has returned: the world is the one it built. *)
Ltac returned := eexists; split; reflexivity.

(** ** The schedule file *)

Lemma run_load_schedule env w :
  run load_schedule env w = (Ret (stored_schedule (schedule_file w)), w).
Proof.
  unfold load_schedule, open_and_unpickle, run, bind, try_except, get, ret, raise.
  destruct (schedule_file w) eqn:E; simpl; rewrite ?E; reflexivity.
Qed.

Lemma run_save_schedule env w :
  run save_schedule env w = (Ret tt, after_save env w).
Proof.
  unfold save_schedule, open_and_pickle, after_save, run, bind, try_except,
    get, ask, modify, ret, raise.
  cbv beta. destruct (disk_write env (length (trace w))); reflexivity.
Qed.

(** C8.  Whatever the state of the schedule file -- missing, unreadable,
    not a pickle, or a pickled schedule -- [load_schedule] returns normally
    and changes nothing; it returns the stored schedule when the file holds
    one and the empty list in the three other cases. *)
Theorem load_schedule_never_raises :
  forall env w,
    exists schedule,
      run load_schedule env w = (Ret schedule, w) /\
      match schedule_file w with
      | Pickled stored => schedule = stored
      | Missing | Unreadable | Garbage => schedule = []
      end.
Proof.
  intros env w. exists (stored_schedule (schedule_file w)).
  split; [apply run_load_schedule|].
  destruct (schedule_file w); reflexivity.
Qed.

(** ** Outbound calls *)

Lemma run_send_message env w chat text markup reply_to :
  run (send_message chat text markup reply_to) env w =
  (Ret (send_succeeds (http env (length (trace w)))),
   emit (Post (SendMessage chat text markup (truthy_id reply_to))) w).
Proof.
  unfold send_message, requests_call, response_json, send_succeeds, run, bind,
    try_except, get, ask, modify, ret, raise.
  cbv beta. destruct (http env (length (trace w))) as [| |status [body|]]; simpl;
    try reflexivity; destruct (status =? 200); reflexivity.
Qed.

Lemma run_answer_callback_query env w id text alert :
  run (answer_callback_query id text alert) env w =
  (Ret (send_succeeds (http env (length (trace w)))),
   emit (Post (AnswerCallbackQuery id (popup_text text) alert)) w).
Proof.
  unfold answer_callback_query, popup_text, requests_call, response_json,
    send_succeeds, run, bind, try_except, get, ask, modify, ret, raise.
  cbv beta. destruct (http env (length (trace w))) as [| |status [body|]]; simpl;
    try reflexivity; destruct (status =? 200); try reflexivity.
  destruct (get_default (body_ok body) false); reflexivity.
Qed.

(** C6.  [answer_callback_query] never raises and posts one request, whose
    text has at most 200 characters: a text of at most 200 characters goes
    out as it is, a longer one as its first 197 characters followed by
    "...", 200 characters in all; so a text of 250 characters goes out as
    200 characters that end in "...". *)
Theorem answer_callback_query_truncates :
  forall env w id text alert,
    exists success sent,
      run (answer_callback_query id text alert) env w =
        (Ret success, emit (Post (AnswerCallbackQuery id sent alert)) w) /\
      (length sent <= 200)%nat /\
      ((length text <= 200)%nat -> sent = text) /\
      ((200 < length text)%nat ->
         sent = firstn 197 text ++ utf8 "..." /\ length sent = 200%nat) /\
      (length text = 250%nat ->
         length sent = 200%nat /\ skipn 197 sent = utf8 "...").
Proof.
  intros env w id text alert.
  exists (send_succeeds (http env (length (trace w)))), (popup_text text).
  split; [apply run_answer_callback_query|].
  assert (Hlong : (200 < length text)%nat ->
                  popup_text text = firstn 197 text ++ utf8 "..." /\
                  length (popup_text text) = 200%nat).
  { intros H. unfold popup_text.
    apply Nat.ltb_lt in H as Hb. rewrite Hb. split; [reflexivity|].
    rewrite length_app, length_firstn, Nat.min_l by lia. reflexivity. }
  assert (Hshort : (length text <= 200)%nat -> popup_text text = text).
  { intros H. unfold popup_text.
    apply Nat.ltb_ge in H as Hb. now rewrite Hb. }
  split; [|split; [|split]].
  - destruct (Nat.le_gt_cases (length text) 200) as [H|H].
    + now rewrite Hshort.
    + apply Hlong in H. lia.
  - exact Hshort.
  - exact Hlong.
  - intros H. destruct Hlong as [Hsent Hlen]; [lia|].
    split; [exact Hlen|]. rewrite Hsent.
    rewrite skipn_app, length_firstn, Nat.min_l by lia.
    rewrite Nat.sub_diag. simpl skipn at 2.
    rewrite skipn_firstn_comm. rewrite Nat.sub_diag. reflexivity.
Qed.

(** ** Separation of trigger times *)

Lemma within_minute_false a b : within_minute a b = false <-> far_apart a b.
Proof. unfold within_minute, far_apart. apply Z.ltb_ge. Qed.

Lemma within_minute_true a b : within_minute a b = true <-> ~ far_apart a b.
Proof. unfold within_minute, far_apart. rewrite Z.ltb_lt. lia. Qed.

Lemma far_apart_sym a b : far_apart a b -> far_apart b a.
Proof. unfold far_apart. lia. Qed.

Lemma is_duplicate_false d l : is_duplicate d l = false <-> far_from d l.
Proof.
  unfold far_from. induction l as [|[[d2 m2] b2] l IH]; simpl.
  - split; [constructor | reflexivity].
  - destruct (within_minute d d2) eqn:E.
    + split; [discriminate|]. intros H. inversion H as [|? ? Hd _]; subst.
      apply within_minute_false in Hd. unfold target_date in Hd.
      cbn [fst] in Hd. congruence.
    + rewrite IH. split.
      * intros H. constructor; [now apply within_minute_false | exact H].
      * intros H. now inversion H.
Qed.

Lemma is_duplicate_true d l :
  is_duplicate d l = true <->
  exists e, In e l /\ Z.abs (d - target_date e) < seconds 60.
Proof.
  induction l as [|[[d2 m2] b2] l IH]; simpl.
  - split; [discriminate | intros [e [[] _]]].
  - destruct (within_minute d d2) eqn:E.
    + split; [intros _ | reflexivity].
      exists (d2, m2, b2). split; [now left|].
      unfold within_minute in E. now apply Z.ltb_lt in E.
    + rewrite IH. split.
      * intros [e [Hin Hlt]]. exists e. split; [now right | exact Hlt].
      * intros [e [[<-|Hin] Hlt]].
        -- exfalso. unfold within_minute in E. apply Z.ltb_ge in E.
           unfold target_date in Hlt. cbn [fst] in Hlt. lia.
        -- now exists e.
Qed.

Lemma already_scheduled_is_duplicate t l :
  already_scheduled t l = is_duplicate t l.
Proof.
  induction l as [|[[d2 m2] b2] l IH]; simpl; [reflexivity|].
  now rewrite IH.
Qed.

Lemma separated_app a b :
  separated (a ++ b) <->
  separated a /\ separated b /\
  Forall (fun x => far_from (target_date x) b) a.
Proof.
  induction a as [|e a IH]; simpl.
  - split; [intros H; repeat split; [exact H | constructor] | tauto].
  - unfold far_from at 1. rewrite Forall_app, IH. split.
    + intros [[Ha Hb] [Hs [Hs' Hf]]]. repeat split; try assumption.
      constructor; assumption.
    + intros [[Ha Hs] [Hs' Hf]]. inversion Hf; subst. tauto.
Qed.

Lemma far_from_sym_all d (b : bool) m l :
  far_from d l <-> Forall (fun x => far_from (target_date x) [(d, m, b)]) l.
Proof.
  unfold far_from. rewrite !Forall_forall. split.
  - intros H x Hx. constructor; [|constructor].
    apply far_apart_sym. now apply H.
  - intros H x Hx. specialize (H x Hx). inversion H; subst.
    now apply far_apart_sym.
Qed.

Lemma separated_snoc l e :
  separated (l ++ [e]) <-> separated l /\ far_from (target_date e) l.
Proof.
  destruct e as [[d m] b]. rewrite separated_app. simpl.
  rewrite <- far_from_sym_all. unfold far_from at 1, target_date at 1. simpl.
  split; [tauto|]. intros [H1 H2]. repeat split; try assumption. constructor.
Qed.

Lemma separated_pairwise l : separated l <-> pairwise_separated l.
Proof.
  unfold pairwise_separated. induction l as [|e l IH]; simpl.
  - split; [|trivial]. intros _ [|i] j a b _ H; discriminate.
  - split.
    + intros [Hf Hs] i j a b Hij Hi Hj.
      unfold far_from in Hf. rewrite Forall_forall in Hf.
      destruct i as [|i], j as [|j]; simpl in *.
      * congruence.
      * injection Hi as <-. apply Hf. eapply nth_error_In; eauto.
      * injection Hj as <-. apply far_apart_sym. apply Hf.
        eapply nth_error_In; eauto.
      * apply (proj1 IH Hs i j a b); congruence.
    + intros H. split.
      * unfold far_from. apply Forall_forall. intros x Hx.
        apply In_nth_error in Hx as [n Hn].
        apply (H 0%nat (S n) e x); [discriminate | reflexivity | exact Hn].
      * apply IH. intros i j a b Hij Hi Hj.
        apply (H (S i) (S j) a b); [congruence | exact Hi | exact Hj].
Qed.

(** ** The duplicate filter *)

Lemma collect_unique_snoc pre e acc :
  collect_unique (pre ++ [e]) acc =
  if is_duplicate (target_date e) (collect_unique pre acc)
  then collect_unique pre acc
  else collect_unique pre acc ++ [e].
Proof.
  revert acc. induction pre as [|[[d m] b] pre IH]; intros acc; simpl.
  - destruct e as [[d m] b]. reflexivity.
  - destruct (is_duplicate d acc); apply IH.
Qed.

Lemma collect_unique_separated l acc :
  separated acc -> separated (collect_unique l acc).
Proof.
  revert acc. induction l as [|[[d m] b] l IH]; intros acc H; simpl; [exact H|].
  destruct (is_duplicate d acc) eqn:E; apply IH; [exact H|].
  apply separated_snoc. split; [exact H|]. now apply is_duplicate_false.
Qed.

Lemma collect_unique_length l acc :
  (length (collect_unique l acc) <= length acc + length l)%nat.
Proof.
  revert acc. induction l as [|[[d m] b] l IH]; intros acc; simpl; [lia|].
  destruct (is_duplicate d acc).
  - specialize (IH acc). lia.
  - specialize (IH (acc ++ [(d, m, b)])). rewrite length_app in IH.
    simpl in IH. lia.
Qed.

Lemma collect_unique_full l acc :
  length (collect_unique l acc) = (length acc + length l)%nat ->
  collect_unique l acc = acc ++ l.
Proof.
  revert acc. induction l as [|[[d m] b] l IH]; intros acc H; simpl in *.
  - now rewrite app_nil_r.
  - destruct (is_duplicate d acc).
    + pose proof (collect_unique_length l acc). lia.
    + rewrite IH; [now rewrite <- app_assoc|].
      rewrite H, length_app. simpl. lia.
Qed.

Lemma collect_unique_fixed l acc :
  separated (acc ++ l) -> collect_unique l acc = acc ++ l.
Proof.
  revert acc. induction l as [|[[d m] b] l IH]; intros acc H; simpl.
  - now rewrite app_nil_r.
  - assert (E : is_duplicate d acc = false).
    { apply is_duplicate_false.
      change (acc ++ (d, m, b) :: l) with (acc ++ [(d, m, b)] ++ l) in H.
      rewrite app_assoc in H. apply separated_app in H as [H _].
      now apply separated_snoc in H. }
    rewrite E, IH; rewrite <- app_assoc; [reflexivity | exact H].
Qed.

Lemma run_remove_duplicate_schedules env w :
  run remove_duplicate_schedules env w = (Ret tt, after_dedup env w).
Proof.
  unfold remove_duplicate_schedules, after_dedup.
  rewrite run_bind, run_get.
  destruct (scheduled_messages w) as [|e l] eqn:E; [reflexivity|].
  destruct (length (collect_unique (e :: l) []) =? length (e :: l))%nat;
    [reflexivity|].
  rewrite run_bind, run_modify. apply run_save_schedule.
Qed.

Lemma after_dedup_messages env w :
  scheduled_messages (after_dedup env w) =
  collect_unique (scheduled_messages w) [].
Proof.
  unfold after_dedup.
  destruct (Nat.eqb_spec (length (collect_unique (scheduled_messages w) []))
              (length (scheduled_messages w))) as [H|H]; [|reflexivity].
  symmetry. now apply (collect_unique_full _ []).
Qed.

Lemma after_dedup_fixed env w :
  separated (scheduled_messages w) -> after_dedup env w = w.
Proof.
  intros H. unfold after_dedup.
  rewrite (collect_unique_fixed _ []) by exact H. simpl.
  now rewrite Nat.eqb_refl.
Qed.

Lemma deduplicated_eq env w l : deduplicated env w l = collect_unique l [].
Proof.
  unfold deduplicated. rewrite run_remove_duplicate_schedules.
  cbn [snd]. apply after_dedup_messages.
Qed.

(** C5.  [remove_duplicate_schedules] goes through the store in its order
    and keeps an entry exactly when its trigger time is at least 60 seconds
    from every entry kept before it, dropping it otherwise: the result on an
    input extended by one entry is the result on the input, extended by
    that entry or not.  On five entries of which those at indices 1 and 3
    are within 60 seconds of the first, the first is kept and those two
    are dropped; the entries at indices 2 and 4 are not of that cluster
    -- clear of the first and of each other -- and then exactly the three
    entries at indices 0, 2 and 4 remain.
    The method never raises; when an entry was dropped the cleaned store
    is handed to [save_schedule] (and is on disk if the write goes through),
    and when none was dropped nothing at all changes. *)
Theorem remove_duplicate_schedules_first_seen_wins :
  forall env w,
    deduplicated env w [] = [] /\
    (forall pre e,
       (far_from (target_date e) (deduplicated env w pre) ->
        deduplicated env w (pre ++ [e]) = deduplicated env w pre ++ [e]) /\
       ((exists a, In a (deduplicated env w pre) /\
                   Z.abs (target_date e - target_date a) < seconds 60) ->
        deduplicated env w (pre ++ [e]) = deduplicated env w pre)) /\
    (forall e0 e1 e2 e3 e4,
       Z.abs (target_date e1 - target_date e0) < seconds 60 ->
       Z.abs (target_date e3 - target_date e0) < seconds 60 ->
       let kept := deduplicated env w [e0; e1; e2; e3; e4] in
       hd_error kept = Some e0 /\
       subsequence kept [e0; e2; e4] /\
       (far_apart (target_date e2) (target_date e0) ->
        far_apart (target_date e4) (target_date e0) ->
        far_apart (target_date e4) (target_date e2) ->
        kept = [e0; e2; e4])) /\
    exists w',
      run remove_duplicate_schedules env w = (Ret tt, w') /\
      scheduled_messages w' = deduplicated env w (scheduled_messages w) /\
      ((length (scheduled_messages w') < length (scheduled_messages w))%nat ->
         trace w' = trace w ++ [Save (scheduled_messages w')] /\
         (disk_write env (length (trace w)) = Written ->
          schedule_file w' = Pickled (scheduled_messages w'))) /\
      (length (scheduled_messages w') = length (scheduled_messages w) ->
         w' = w).
Proof.
  intros env w. split; [|split; [|split]].
  - now rewrite deduplicated_eq.
  - intros pre e. rewrite !deduplicated_eq, collect_unique_snoc. split.
    + intros H. apply is_duplicate_false in H. now rewrite H.
    + intros H. apply is_duplicate_true in H. now rewrite H.
  - intros [[d0 m0] b0] [[d1 m1] b1] [[d2 m2] b2] [[d3 m3] b3] [[d4 m4] b4].
    unfold target_date, far_apart. cbn [fst]. intros H1 H3. cbv zeta.
    apply Z.ltb_lt in H1, H3. fold (within_minute d1 d0) in H1.
    fold (within_minute d3 d0) in H3.
    rewrite deduplicated_eq.
    cbn [collect_unique is_duplicate app]. rewrite H1.
    destruct (within_minute d2 d0) eqn:E2;
      cbn [collect_unique is_duplicate app]; rewrite H3;
      destruct (within_minute d4 d0) eqn:E4;
      cbn [collect_unique is_duplicate app];
      try destruct (within_minute d4 d2) eqn:E42;
      cbn [collect_unique is_duplicate app hd_error];
      (split; [reflexivity|]); (split; [repeat constructor|]).
    all: intros F2 F4 F42.
    all: apply within_minute_false in F2; apply within_minute_false in F4;
      apply within_minute_false in F42; first [reflexivity | congruence].
  - exists (after_dedup env w).
    split; [apply run_remove_duplicate_schedules|].
    split; [now rewrite deduplicated_eq, after_dedup_messages|].
    pose proof (after_dedup_messages env w) as Hm. unfold after_dedup in *.
    destruct (Nat.eqb_spec (length (collect_unique (scheduled_messages w) []))
                (length (scheduled_messages w))) as [E|E].
    + split; [lia | reflexivity].
    + split; [|cbn [scheduled_messages after_save set_schedule_file emit
                     set_scheduled_messages]; intros; congruence].
      intros _. unfold after_save.
      cbn [scheduled_messages trace schedule_file set_schedule_file emit
             set_scheduled_messages].
      split; [reflexivity|]. now intros ->.
Qed.

Lemma remove_duplicate_schedules_first_seen_wins_witness :
  scheduled_messages
    (snd (run remove_duplicate_schedules example_env clustered_world)) =
  [ entry_at 0; entry_at 100; entry_at 200 ].
Proof.
  destruct (remove_duplicate_schedules_first_seen_wins example_env
              clustered_world) as (_ & _ & Hfive & w' & Hrun & Hkept & _).
  rewrite Hrun. cbn [snd]. rewrite Hkept.
  destruct (Hfive (entry_at 0) (entry_at 30) (entry_at 100) (entry_at 59)
              (entry_at 200) eq_refl eq_refl) as (_ & _ & Hthree).
  apply Hthree; unfold far_apart; vm_compute; discriminate.
Defined.

(** C10.  On a store whose entries are pairwise at least 60 seconds apart,
    [remove_duplicate_schedules] changes nothing: every entry stays, in
    place, and nothing is written (the trace and the file are those of
    before).  Its own result is such a store, so calling it again right
    away changes nothing; and on the empty store it does nothing. *)
Theorem remove_duplicate_schedules_idempotent :
  forall env w,
    (pairwise_separated (scheduled_messages w) ->
       run remove_duplicate_schedules env w = (Ret tt, w)) /\
    (forall w1,
       run remove_duplicate_schedules env w = (Ret tt, w1) ->
       run remove_duplicate_schedules env w1 = (Ret tt, w1)) /\
    (scheduled_messages w = [] ->
       run remove_duplicate_schedules env w = (Ret tt, w)).
Proof.
  intros env w.
  assert (Hfix : forall v, separated (scheduled_messages v) ->
                 run remove_duplicate_schedules env v = (Ret tt, v)).
  { intros v H. rewrite run_remove_duplicate_schedules.
    now rewrite after_dedup_fixed. }
  split; [|split].
  - intros H. apply Hfix. now apply separated_pairwise.
  - intros w1 H. apply Hfix.
    rewrite run_remove_duplicate_schedules in H. injection H as <-.
    rewrite after_dedup_messages. now apply collect_unique_separated.
  - intros H. apply Hfix. now rewrite H.
Qed.

Lemma remove_duplicate_schedules_idempotent_witness :
  pairwise_separated (scheduled_messages spaced_world) /\
  run remove_duplicate_schedules example_env spaced_world =
    (Ret tt, spaced_world).
Proof.
  assert (H : pairwise_separated (scheduled_messages spaced_world)).
  { apply separated_pairwise. cbn. unfold far_from, far_apart.
    repeat split; repeat constructor; vm_compute; discriminate. }
  split; [exact H|].
  exact (proj1 (remove_duplicate_schedules_idempotent example_env spaced_world) H).
Defined.

(** ** The dispatcher *)

Lemma set_scheduled_messages_same w :
  set_scheduled_messages (scheduled_messages w) w = w.
Proof. now destruct w. Qed.

Lemma set_scheduled_messages_twice a b w :
  set_scheduled_messages a (set_scheduled_messages b w) =
  set_scheduled_messages a w.
Proof. reflexivity. Qed.

Lemma trace_emit_all effects w :
  trace (emit_all effects w) = trace w ++ effects.
Proof.
  unfold emit_all. revert w.
  induction effects as [|e effects IH]; intros w; simpl.
  - now rewrite app_nil_r.
  - rewrite IH. simpl. now rewrite <- app_assoc.
Qed.

Lemma scheduled_messages_emit_all effects w :
  scheduled_messages (emit_all effects w) = scheduled_messages w.
Proof.
  unfold emit_all. revert w.
  induction effects as [|e effects IH]; intros w; simpl; [reflexivity|].
  now rewrite IH.
Qed.

Lemma run_send_due env now l :
  forall i w,
    run (send_due now i l) env w =
    (Ret (due_indices now i l),
     emit_all (map (fun e => Post (dispatch env e)) (filter (due now) l)) w).
Proof.
  induction l as [|[[d m] b] l IH]; intros i w; [reflexivity|].
  cbn [send_due due_indices filter].
  change (due now (d, m, b)) with (d <=? now).
  destruct (d <=? now); [|apply IH].
  rewrite run_bind, run_ask, run_bind, run_send_message, run_bind, IH.
  reflexivity.
Qed.

Lemma run_pop_scheduled env w p e rest :
  scheduled_messages w = p ++ e :: rest ->
  run (pop_scheduled (length p)) env w =
  (Ret tt, set_scheduled_messages (p ++ rest) w).
Proof.
  intros H. unfold pop_scheduled. rewrite run_bind, run_get, H.
  assert (Hlt : (length p <? length (p ++ e :: rest))%nat = true).
  { apply Nat.ltb_lt. rewrite length_app. simpl. lia. }
  rewrite Hlt, run_modify.
  rewrite firstn_app, firstn_all, Nat.sub_diag, firstn_O, app_nil_r.
  rewrite skipn_app, skipn_all2 by lia.
  replace (S (length p) - length p)%nat with 1%nat by lia. reflexivity.
Qed.

Lemma run_pop_due env now l :
  forall p w,
    scheduled_messages w = p ++ l ->
    run (for_each (rev (due_indices now (length p) l)) pop_scheduled) env w =
    (Ret tt, set_scheduled_messages (p ++ filter (not_due now) l) w).
Proof.
  induction l as [|e l IH]; intros p w H.
  - simpl. rewrite run_ret, <- H. now rewrite set_scheduled_messages_same.
  - assert (H' : scheduled_messages w = (p ++ [e]) ++ l)
      by now rewrite <- app_assoc.
    specialize (IH (p ++ [e]) w H').
    rewrite length_app, Nat.add_1_r in IH.
    cbn [due_indices filter]. unfold due, not_due in *.
    destruct (Z.leb_spec (target_date e) now) as [Hd|Hd].
    + assert (Hn : (now <? target_date e) = false) by (apply Z.ltb_ge; lia).
      rewrite Hn. cbn [rev].
      rewrite (run_for_each_app _ _ _ _ _ _ IH). cbn [for_each].
      rewrite run_bind.
      rewrite (run_pop_scheduled env _ p e (filter (fun x => now <? target_date x) l))
        by now rewrite <- app_assoc.
      now rewrite run_ret.
    + assert (Hn : (now <? target_date e) = true) by (apply Z.ltb_lt; lia).
      rewrite Hn, IH. now rewrite <- app_assoc.
Qed.

Lemma due_indices_nil now l :
  forall i,
    match due_indices now i l with [] => false | _ => true end =
    existsb (due now) l.
Proof.
  induction l as [|e l IH]; intros i; [reflexivity|].
  cbn [due_indices existsb]. destruct (due now e); [reflexivity|apply IH].
Qed.

Lemma run_check_scheduled_messages env w now :
  run (check_scheduled_messages now) env w = (Ret tt, after_tick env now w).
Proof.
  unfold check_scheduled_messages, after_tick.
  rewrite run_bind, run_get, run_bind, run_send_due, run_bind.
  rewrite (run_pop_due env now (scheduled_messages w) [])
    by now rewrite scheduled_messages_emit_all.
  rewrite <- (due_indices_nil now (scheduled_messages w) 0).
  cbn [app]. destruct (due_indices now 0 (scheduled_messages w));
    [reflexivity | apply run_save_schedule].
Qed.

Lemma filter_subsequence {A} (f : A -> bool) l : subsequence (filter f l) l.
Proof.
  induction l as [|x l IH]; simpl; [constructor|].
  destruct (f x); now constructor.
Qed.

Lemma filter_none {A} (f g : A -> bool) l :
  (forall x, g x = negb (f x)) -> existsb f l = false -> filter g l = l.
Proof.
  intros Hg. induction l as [|x l IH]; simpl; [reflexivity|].
  rewrite Hg. destruct (f x); simpl; [discriminate|].
  intros H. now rewrite IH.
Qed.

Lemma not_due_negb now e : not_due now e = negb (due now e).
Proof. unfold not_due, due. now rewrite Z.leb_antisym, negb_involutive. Qed.

Lemma after_tick_idle env now w :
  existsb (due now) (scheduled_messages w) = false -> after_tick env now w = w.
Proof.
  intros H. unfold after_tick. rewrite H.
  rewrite (filter_none (due now) (not_due now) _ (not_due_negb now) H).
  assert (E : filter (due now) (scheduled_messages w) = []).
  { revert H. induction (scheduled_messages w) as [|x l IH]; simpl;
      [reflexivity|]. destruct (due now x); [discriminate | exact IH]. }
  rewrite E. apply set_scheduled_messages_same.
Qed.

Lemma after_tick_messages env now w :
  scheduled_messages (after_tick env now w) =
  filter (not_due now) (scheduled_messages w).
Proof.
  unfold after_tick.
  destruct (existsb (due now) (scheduled_messages w)); reflexivity.
Qed.

Lemma after_tick_trace env now w :
  trace (after_tick env now w) =
  trace w
  ++ map (fun e => Post (dispatch env e)) (filter (due now) (scheduled_messages w))
  ++ (if existsb (due now) (scheduled_messages w)
      then [Save (filter (not_due now) (scheduled_messages w))] else []).
Proof.
  unfold after_tick, after_save.
  destruct (existsb (due now) (scheduled_messages w));
    cbn [trace set_schedule_file emit set_scheduled_messages scheduled_messages];
    rewrite trace_emit_all.
  - now rewrite <- app_assoc.
  - now rewrite app_nil_r.
Qed.

(** C4.  For every store and every time [now], and whatever the API
    answers to the sends, [check_scheduled_messages] returns normally; it
    posts to the group, in the order of the store, one message for each
    entry with [target_date <= now] (with the keyboard when the entry asks
    for it) and for no other; the store it leaves holds the entries with
    [target_date > now]; when at least one entry was due the new store is
    handed to [save_schedule] after the sends (and is on disk if the write
    goes through), and when none was due nothing at all changes.  With a
    single entry at [now] minus one second, the tick sends it and empties
    the store, and a second tick at the same [now] changes nothing. *)
Theorem check_scheduled_messages_sends_and_removes_due :
  forall env w now,
    exists w',
      run (check_scheduled_messages now) env w = (Ret tt, w') /\
      scheduled_messages w' =
        filter (fun e => now <? target_date e) (scheduled_messages w) /\
      (exists saves,
         trace w' =
           trace w
           ++ map (fun e => Post (dispatch env e))
                (filter (fun e => target_date e <=? now) (scheduled_messages w))
           ++ saves /\
         ((exists e, In e (scheduled_messages w) /\ target_date e <= now) ->
            saves = [Save (scheduled_messages w')] /\
            (disk_write env (length (trace w') - 1) = Written ->
             schedule_file w' = Pickled (scheduled_messages w'))) /\
         ((forall e, In e (scheduled_messages w) -> now < target_date e) ->
            saves = [] /\ w' = w)) /\
      (forall e,
         scheduled_messages w = [e] -> target_date e = now - seconds 1 ->
         scheduled_messages w' = [] /\
         trace w' = trace w ++ [Post (dispatch env e); Save []] /\
         run (check_scheduled_messages now) env w' = (Ret tt, w')).
Proof.
  intros env w now. exists (after_tick env now w).
  split; [apply run_check_scheduled_messages|].
  split; [apply after_tick_messages|].
  split.
  - exists (if existsb (due now) (scheduled_messages w)
            then [Save (filter (not_due now) (scheduled_messages w))] else []).
    split; [apply after_tick_trace|]. split.
    + intros [e [Hin Hdue]].
      assert (E : existsb (due now) (scheduled_messages w) = true).
      { apply existsb_exists. exists e. split; [exact Hin|].
        unfold due. now apply Z.leb_le. }
      rewrite E, after_tick_messages. split; [reflexivity|].
      rewrite after_tick_trace, E. unfold after_tick. rewrite E.
      unfold after_save.
      cbn [schedule_file set_schedule_file emit set_scheduled_messages
             scheduled_messages trace].
      rewrite trace_emit_all, !length_app. cbn [length].
      replace (length (trace w) +
               (length (map (fun e0 => Post (dispatch env e0))
                          (filter (due now) (scheduled_messages w))) + 1) - 1)%nat
        with (length (trace w) +
              length (map (fun e0 => Post (dispatch env e0))
                        (filter (due now) (scheduled_messages w))))%nat by lia.
      now intros ->.
    + intros H.
      assert (E : existsb (due now) (scheduled_messages w) = false).
      { apply not_true_is_false. intros C.
        apply existsb_exists in C as [e [Hin Hdue]].
        unfold due in Hdue. apply Z.leb_le in Hdue.
        specialize (H e Hin). lia. }
      rewrite E. split; [reflexivity | now apply after_tick_idle].
  - intros e Hone Hat.
    assert (Hdue : due now e = true).
    { unfold due. apply Z.leb_le. rewrite Hat. unfold seconds.
      unfold microseconds_per_second. lia. }
    assert (Hnot : not_due now e = false)
      by now rewrite not_due_negb, Hdue.
    rewrite after_tick_messages, after_tick_trace, Hone.
    cbn [filter existsb map]. rewrite Hdue, Hnot. cbn [orb map app].
    split; [reflexivity|]. split; [reflexivity|].
    rewrite run_check_scheduled_messages. f_equal.
    apply after_tick_idle. rewrite after_tick_messages, Hone.
    cbn [filter]. now rewrite Hnot.
Qed.

(** C9.  [check_scheduled_messages] returns normally and leaves in the store
    exactly the entries with [target_date > now], each the same tuple as
    before (time, text and flag), in their former relative order: the new
    store is the old one with the due entries left out.  The cursor, the
    member count and the initialisation flag are untouched. *)
Theorem check_scheduled_messages_keeps_pending :
  forall env w now,
    exists w',
      run (check_scheduled_messages now) env w = (Ret tt, w') /\
      scheduled_messages w' =
        filter (fun e => now <? target_date e) (scheduled_messages w) /\
      subsequence (scheduled_messages w') (scheduled_messages w) /\
      (forall e,
         In e (scheduled_messages w') <->
         In e (scheduled_messages w) /\ now < target_date e) /\
      last_update_id w' = last_update_id w /\
      member_count w' = member_count w /\
      schedule_initialized w' = schedule_initialized w.
Proof.
  intros env w now. exists (after_tick env now w).
  split; [apply run_check_scheduled_messages|].
  split; [apply after_tick_messages|].
  rewrite after_tick_messages.
  split; [apply filter_subsequence|].
  split.
  - intros e. rewrite filter_In. unfold not_due. now rewrite Z.ltb_lt.
  - assert (Hframe : forall effects v,
              last_update_id (emit_all effects v) = last_update_id v /\
              member_count (emit_all effects v) = member_count v /\
              schedule_initialized (emit_all effects v) = schedule_initialized v).
    { unfold emit_all. induction effects as [|x effects IH]; intros v;
        [now repeat split|]. simpl. destruct (IH (emit x v)) as (-> & -> & ->).
      now repeat split. }
    unfold after_tick.
    destruct (existsb (due now) (scheduled_messages w));
      cbn [after_save last_update_id member_count schedule_initialized
             set_schedule_file emit set_scheduled_messages];
      apply Hframe.
Qed.

(** ** The membership counter *)

Lemma run_welcome_member env w member :
  run (welcome_member member) env w = (Ret tt, after_member env member w).
Proof.
  unfold welcome_member, after_member, is_human.
  destruct (get_default (is_bot member) false); [reflexivity|].
  cbn [negb]. rewrite run_bind, run_get, run_bind, run_modify.
  cbn [member_count set_member_count].
  destruct ((member_count w + 1) mod 25 =? 0); [|reflexivity].
  rewrite run_bind, run_ask, run_bind, run_send_message. reflexivity.
Qed.

Lemma milestone_step c :
  (c + 1) / 25 - c / 25 = if (c + 1) mod 25 =? 0 then 1 else 0.
Proof.
  destruct (Z.eqb_spec ((c + 1) mod 25) 0) as [H|H];
    Z.div_mod_to_equations; lia.
Qed.

Lemma div25_monotone a b : a <= b -> a / 25 <= b / 25.
Proof. intros H. apply Z.div_le_mono; lia. Qed.

Lemma repeat_app_Z {A} (x : A) a b c :
  a <= b -> b <= c ->
  repeat x (Z.to_nat (b - a)) ++ repeat x (Z.to_nat (c - b)) =
  repeat x (Z.to_nat (c - a)).
Proof.
  intros H1 H2. rewrite <- repeat_app. f_equal. lia.
Qed.

Lemma counted_from_refl env w : counted_from env w w 0.
Proof.
  split; [lia|]. rewrite Z.sub_diag. simpl. now rewrite app_nil_r.
Qed.

Lemma counted_from_trans env w1 w2 w3 n m :
  0 <= n -> 0 <= m ->
  counted_from env w1 w2 n -> counted_from env w2 w3 m ->
  counted_from env w1 w3 (n + m).
Proof.
  intros Hn Hm [Hc1 Ht1] [Hc2 Ht2]. split; [lia|].
  rewrite Ht2, Ht1, <- app_assoc. f_equal.
  apply repeat_app_Z; apply div25_monotone; lia.
Qed.

Lemma after_member_counted env member w :
  counted_from env w (after_member env member w)
    (if is_human member then 1 else 0).
Proof.
  unfold after_member. destruct (is_human member);
    [|apply counted_from_refl].
  pose proof (milestone_step (member_count w)) as Hstep.
  destruct ((member_count w + 1) mod 25 =? 0); split;
    cbn [member_count trace emit set_member_count]; try reflexivity;
    rewrite Hstep; simpl; [reflexivity | now rewrite app_nil_r].
Qed.

Lemma run_welcome_members env members :
  forall w,
    exists w',
      run (for_each members welcome_member) env w = (Ret tt, w') /\
      counted_from env w w' (Z.of_nat (length (filter is_human members))).
Proof.
  induction members as [|member members IH]; intros w.
  - exists w. split; [reflexivity | apply counted_from_refl].
  - destruct (IH (after_member env member w)) as (w' & Hrun & Hcount).
    exists w'. cbn [for_each]. rewrite run_bind, run_welcome_member.
    split; [exact Hrun|].
    pose proof (after_member_counted env member w) as Hone.
    cbn [filter]. destruct (is_human member).
    + cbn [length]. rewrite Nat2Z.inj_succ, <- Z.add_1_l.
      eapply counted_from_trans; eauto; lia.
    + replace (Z.of_nat (length (filter is_human members)))
        with (0 + Z.of_nat (length (filter is_human members))) by lia.
      eapply counted_from_trans; eauto; lia.
Qed.

Lemma joined_nonneg message : 0 <= joined message.
Proof. unfold joined. lia. Qed.

Lemma total_joined_nonneg messages : 0 <= total_joined messages.
Proof.
  induction messages as [|m ms IH]; simpl; [lia|].
  pose proof (joined_nonneg m). lia.
Qed.

Lemma run_process_new_members env message w :
  exists w',
    run (process_new_members message) env w = (Ret tt, w') /\
    counted_from env w w' (joined message).
Proof.
  unfold process_new_members, joined.
  destruct (msg_new_chat_members message) as [members|]; cbn [get_default].
  - apply run_welcome_members.
  - exists w. split; [reflexivity | apply counted_from_refl].
Qed.

Lemma run_process_all_new_members env messages :
  forall w,
    exists w',
      run (for_each messages process_new_members) env w = (Ret tt, w') /\
      counted_from env w w' (total_joined messages).
Proof.
  induction messages as [|message messages IH]; intros w.
  - exists w. split; [reflexivity | apply counted_from_refl].
  - destruct (run_process_new_members env message w) as (w1 & Hrun1 & Hc1).
    destruct (IH w1) as (w' & Hrun & Hc).
    exists w'. cbn [for_each]. rewrite run_bind, Hrun1.
    split; [exact Hrun|]. cbn [total_joined fold_right].
    eapply counted_from_trans; eauto;
      [apply joined_nonneg | apply total_joined_nonneg].
Qed.

(** C7.  [process_new_members] never raises.  A new member who is a bot
    changes nothing.  A new member who is not a bot raises the counter by
    one, and the welcome broadcast (to the group, with the keyboard, not as
    a reply) is posted exactly when the raised counter is a multiple of 25.
    So over any batch of join messages the counter grows by the number of
    non-bot members and the trace grows by one broadcast for each multiple
    of 25 the counter has reached; from a counter of 0, joins by 24 non-bot
    members post nothing, and one more non-bot member posts exactly one
    broadcast. *)
Theorem process_new_members_milestones :
  forall env w,
    (forall member,
       exists w1,
         run (welcome_member member) env w = (Ret tt, w1) /\
         (get_default (is_bot member) false = true -> w1 = w) /\
         (get_default (is_bot member) false = false ->
            member_count w1 = member_count w + 1 /\
            ((member_count w + 1) mod 25 = 0 ->
               trace w1 = trace w ++ [Post (broadcast env)]) /\
            ((member_count w + 1) mod 25 <> 0 -> trace w1 = trace w))) /\
    (forall messages,
       exists w',
         run (for_each messages process_new_members) env w = (Ret tt, w') /\
         member_count w' = member_count w + total_joined messages /\
         trace w' =
           trace w
           ++ repeat (Post (broadcast env))
                (Z.to_nat (member_count w' / 25 - member_count w / 25)) /\
         (member_count w = 0 -> total_joined messages = 24 ->
            trace w' = trace w /\
            forall newcomer,
              joined newcomer = 1 ->
              exists w'',
                run (process_new_members newcomer) env w' = (Ret tt, w'') /\
                member_count w'' = 25 /\
                trace w'' = trace w ++ [Post (broadcast env)])).
Proof.
  intros env w. split.
  - intros member. exists (after_member env member w).
    split; [apply run_welcome_member|].
    unfold after_member, is_human.
    destruct (get_default (is_bot member) false); cbn [negb].
    + split; [reflexivity | discriminate].
    + split; [discriminate|]. intros _.
      destruct (Z.eqb_spec ((member_count w + 1) mod 25) 0) as [H|H];
        cbn [member_count trace emit set_member_count].
      * split; [reflexivity|]. split; [reflexivity | contradiction].
      * split; [reflexivity|]. split; [contradiction | reflexivity].
  - intros messages.
    destruct (run_process_all_new_members env messages w)
      as (w' & Hrun & Hcount & Htrace).
    exists w'. split; [exact Hrun|]. split; [exact Hcount|].
    split; [exact Htrace|].
    intros Hzero H24. rewrite Hzero, H24 in Hcount.
    split.
    + rewrite Htrace, Hcount, Hzero. simpl. now rewrite app_nil_r.
    + intros newcomer Hone.
      destruct (run_process_new_members env newcomer w')
        as (w'' & Hrun' & Hcount' & Htrace').
      exists w''. split; [exact Hrun'|].
      rewrite Hone, Hcount in Hcount'. split; [exact Hcount'|].
      rewrite Htrace', Htrace, Hcount', Hcount, Hzero. simpl.
      now rewrite app_nil_r.
Qed.

(** ** The invariant of the store *)

Lemma run_add_scheduled_message env w target text buttons :
  run (add_scheduled_message target text buttons) env w =
  (Ret tt, after_add env target text buttons w).
Proof.
  unfold add_scheduled_message, after_add. rewrite run_bind, run_get.
  destruct (already_scheduled target (scheduled_messages w)); [reflexivity|].
  rewrite run_bind, run_modify. apply run_save_schedule.
Qed.

Lemma after_add_messages env target text buttons w :
  scheduled_messages (after_add env target text buttons w) =
  if already_scheduled target (scheduled_messages w)
  then scheduled_messages w
  else scheduled_messages w ++ [(target, text, buttons)].
Proof.
  unfold after_add.
  destruct (already_scheduled target (scheduled_messages w)); reflexivity.
Qed.

Lemma after_add_separated env target text buttons w :
  separated (scheduled_messages w) ->
  separated (scheduled_messages (after_add env target text buttons w)).
Proof.
  intros H. rewrite after_add_messages, already_scheduled_is_duplicate.
  destruct (is_duplicate target (scheduled_messages w)) eqn:E; [exact H|].
  apply separated_snoc. split; [exact H|]. now apply is_duplicate_false.
Qed.

Lemma run_schedule_wedding_reminders env w :
  run schedule_wedding_reminders env w = (Ret tt, after_seed env w).
Proof.
  unfold schedule_wedding_reminders, after_seed. rewrite run_bind, run_get.
  destruct (schedule_initialized w); [reflexivity|].
  do 2 call run_add_scheduled_message. apply run_add_scheduled_message.
Qed.

Lemma after_seed_separated env w :
  separated (scheduled_messages w) ->
  separated (scheduled_messages (after_seed env w)).
Proof.
  intros H. unfold after_seed. destruct (schedule_initialized w); [exact H|].
  now repeat apply after_add_separated.
Qed.

Lemma run_check_if_schedule_exists env w :
  run check_if_schedule_exists env w =
  (Ret (schedule_exists (scheduled_messages w)), w).
Proof.
  unfold check_if_schedule_exists, schedule_exists. rewrite run_bind, run_get.
  destruct (length (scheduled_messages w) =? 0)%nat; reflexivity.
Qed.

Lemma run_init env w : run init env w = (Ret tt, after_init env w).
Proof.
  unfold init, after_init.
  call run_modify. call run_modify. call run_load_schedule.
  call run_modify. call run_remove_duplicate_schedules.
  call run_check_if_schedule_exists. now rewrite run_modify.
Qed.

Lemma after_init_messages env w :
  scheduled_messages (after_init env w) =
  collect_unique (stored_schedule (schedule_file w)) [].
Proof.
  unfold after_init. cbn [scheduled_messages set_schedule_initialized].
  now rewrite after_dedup_messages.
Qed.

Lemma separated_far_from_filter d (f : Entry -> bool) l :
  far_from d l -> far_from d (filter f l).
Proof.
  unfold far_from. rewrite !Forall_forall. intros H x Hx.
  apply filter_In in Hx. now apply H.
Qed.

Lemma separated_filter (f : Entry -> bool) l :
  separated l -> separated (filter f l).
Proof.
  induction l as [|e l IH]; simpl; [trivial|]. intros [Hf Hs].
  destruct (f e); simpl; auto using separated_far_from_filter.
Qed.

Lemma separated_nil : separated [].
Proof. exact I. Qed.

Create HintDb store discriminated.
#[local] Hint Resolve separated_nil collect_unique_separated
  after_add_separated after_seed_separated separated_filter : store.

Lemma reachable_separated env w :
  reachable env w -> separated (scheduled_messages w).
Proof.
  induction 1 as [w H | w w' H | w w' H | w w' t m b _ IH H
                  | w w' _ IH H | w w' now _ IH H].
  - now rewrite H.
  - rewrite run_init in H. injection H as <-.
    rewrite after_init_messages. auto with store.
  - rewrite run_remove_duplicate_schedules in H. injection H as <-.
    rewrite after_dedup_messages. auto with store.
  - rewrite run_add_scheduled_message in H. injection H as <-.
    auto with store.
  - rewrite run_schedule_wedding_reminders in H. injection H as <-.
    auto with store.
  - rewrite run_check_scheduled_messages in H. injection H as <-.
    rewrite after_tick_messages. auto with store.
Qed.

(** C1.  In every store the process can hold -- the one the constructor
    builds from the file, the result of [remove_duplicate_schedules] on any
    store, and whatever [add_scheduled_message], the seeding and the
    dispatcher make of these -- any two entries at distinct positions have
    trigger times at least 60 seconds apart; and [add_scheduled_message]
    changes nothing at all when an entry of the store is less than 60
    seconds from the new time. *)
Theorem stored_entries_stay_a_minute_apart :
  forall env w,
    reachable env w ->
    pairwise_separated (scheduled_messages w) /\
    (forall target text buttons e,
       In e (scheduled_messages w) ->
       Z.abs (target - target_date e) < seconds 60 ->
       run (add_scheduled_message target text buttons) env w = (Ret tt, w)).
Proof.
  intros env w H. split.
  - apply separated_pairwise. now apply (reachable_separated env).
  - intros target text buttons e Hin Hnear.
    rewrite run_add_scheduled_message. unfold after_add.
    rewrite already_scheduled_is_duplicate.
    assert (E : is_duplicate target (scheduled_messages w) = true)
      by (apply is_duplicate_true; eauto).
    now rewrite E.
Qed.

(** ** Seeding the reminders *)

Lemma run_startup env w :
  run startup env w = (Ret tt, after_seed env (after_init env w)).
Proof.
  unfold startup. rewrite run_bind, run_init.
  apply run_schedule_wedding_reminders.
Qed.

Lemma within_minute_refl t : within_minute t t = true.
Proof. unfold within_minute. rewrite Z.sub_diag. reflexivity. Qed.

Lemma is_duplicate_app d l1 l2 :
  is_duplicate d (l1 ++ l2) = is_duplicate d l1 || is_duplicate d l2.
Proof.
  induction l1 as [|[[d1 m1] b1] l1 IH]; simpl; [reflexivity|].
  destruct (within_minute d d1); [reflexivity | exact IH].
Qed.

Lemma after_add_noop env target text buttons w :
  already_scheduled target (scheduled_messages w) = true ->
  after_add env target text buttons w = w.
Proof. intros H. unfold after_add. now rewrite H. Qed.

Lemma already_after_add env target text buttons w :
  already_scheduled target
    (scheduled_messages (after_add env target text buttons w)) = true.
Proof.
  rewrite after_add_messages.
  destruct (already_scheduled target (scheduled_messages w)) eqn:E;
    [exact E|].
  rewrite already_scheduled_is_duplicate, is_duplicate_app. simpl.
  rewrite within_minute_refl. apply orb_true_r.
Qed.

Lemma already_kept_by_add env target text buttons d w :
  already_scheduled d (scheduled_messages w) = true ->
  already_scheduled d
    (scheduled_messages (after_add env target text buttons w)) = true.
Proof.
  intros H. rewrite after_add_messages.
  destruct (already_scheduled target (scheduled_messages w)); [exact H|].
  rewrite already_scheduled_is_duplicate in *.
  rewrite is_duplicate_app, H. reflexivity.
Qed.

Lemma after_add_initialized env target text buttons w :
  schedule_initialized (after_add env target text buttons w) =
  schedule_initialized w.
Proof.
  unfold after_add.
  destruct (already_scheduled target (scheduled_messages w)); reflexivity.
Qed.

(** After the seeding has run on an unseeded process, each of the three
    dates has an entry within a minute. *)
Lemma seeded_dates_present env w :
  schedule_initialized w = false ->
  let msgs := scheduled_messages (after_seed env w) in
  already_scheduled (wedding_date - days 7) msgs = true /\
  already_scheduled (wedding_date - days 1) msgs = true /\
  already_scheduled wedding_date msgs = true.
Proof.
  intros H. unfold after_seed. rewrite H. cbv zeta.
  repeat split.
  - do 2 apply already_kept_by_add. apply already_after_add.
  - apply already_kept_by_add. apply already_after_add.
  - apply already_after_add.
Qed.

Lemma after_seed_twice env w :
  after_seed env (after_seed env w) = after_seed env w.
Proof.
  destruct (schedule_initialized w) eqn:E.
  - unfold after_seed. now rewrite E, E.
  - destruct (seeded_dates_present env w E) as (H7 & H1 & H0).
    unfold after_seed at 1.
    assert (Ei : schedule_initialized (after_seed env w) = false).
    { unfold after_seed. rewrite E. now rewrite !after_add_initialized. }
    rewrite Ei.
    rewrite (after_add_noop env (wedding_date - days 7)) by exact H7.
    rewrite (after_add_noop env (wedding_date - days 1)) by exact H1.
    now apply after_add_noop.
Qed.

Lemma already_scheduled_expected d l :
  already_scheduled d l = expected_date_exists d (map target_date l).
Proof.
  induction l as [|[[d1 m1] b1] l IH]; simpl; [reflexivity|].
  unfold target_date at 1. cbn [fst]. now rewrite IH.
Qed.

Lemma schedule_exists_of_seeded l :
  already_scheduled (wedding_date - days 7) l = true ->
  schedule_exists l = true.
Proof.
  intros H. unfold schedule_exists.
  destruct l as [|e l]; [discriminate|].
  cbn [length Nat.eqb]. unfold expected_dates.
  cbn [any_expected_date_exists].
  now rewrite <- already_scheduled_expected, H.
Qed.

Section ReliableDisk.
Variable env : Env.
Hypothesis writes_succeed : forall n, disk_write env n = Written.

Lemma after_save_synced w : synced (after_save env w).
Proof. unfold synced, after_save. now rewrite writes_succeed. Qed.

Lemma after_add_synced target text buttons w :
  synced w -> synced (after_add env target text buttons w).
Proof.
  intros H. unfold after_add.
  destruct (already_scheduled target (scheduled_messages w));
    [exact H | apply after_save_synced].
Qed.

Lemma after_init_synced w : synced (after_init env w).
Proof.
  unfold after_init, synced.
  cbn [schedule_file scheduled_messages set_schedule_initialized].
  unfold after_dedup. cbv zeta.
  destruct (_ =? _)%nat; [reflexivity | apply after_save_synced].
Qed.

Lemma after_seed_synced w : synced w -> synced (after_seed env w).
Proof.
  intros H. unfold after_seed. destruct (schedule_initialized w); [exact H|].
  now repeat apply after_add_synced.
Qed.

(** A second start finds the schedule of the first and adds nothing. *)
Lemma restart_keeps_schedule w :
  let w1 := after_seed env (after_init env w) in
  let w2 := after_seed env (after_init env w1) in
  scheduled_messages w2 = scheduled_messages w1 /\
  schedule_file w2 = schedule_file w1 /\
  trace w2 = trace w1.
Proof.
  cbv zeta. set (w0 := after_init env w). set (w1 := after_seed env w0).
  assert (Hsync : synced w1)
    by (apply after_seed_synced, after_init_synced).
  assert (Hsep : separated (scheduled_messages w1)).
  { apply after_seed_separated. unfold w0.
    rewrite after_init_messages. now apply collect_unique_separated. }
  assert (Hexists : schedule_exists (scheduled_messages w1) = true).
  { destruct (schedule_initialized w0) eqn:E.
    - unfold w1, after_seed. rewrite E. unfold w0, after_init in *.
      exact E.
    - apply schedule_exists_of_seeded.
      now apply (seeded_dates_present env w0 E). }
  assert (Hinit : after_init env w1 =
                  set_schedule_initialized true
                    (set_member_count 0 (set_last_update_id 0 w1))).
  { unfold after_init. rewrite Hsync.
    rewrite after_dedup_fixed by exact Hsep.
    cbn [scheduled_messages set_scheduled_messages]. rewrite Hexists.
    now destruct w1. }
  rewrite Hinit. unfold after_seed at 1.
  cbn [schedule_initialized set_schedule_initialized].
  repeat split.
Qed.
End ReliableDisk.

Lemma collect_unique_In e l :
  forall acc, In e (collect_unique l acc) -> In e acc \/ In e l.
Proof.
  induction l as [|[[d m] b] l IH]; intros acc H; simpl in *; [now left|].
  destruct (is_duplicate d acc).
  - destruct (IH _ H); auto.
  - destruct (IH _ H) as [Hacc|Hl]; [|auto].
    apply in_app_or in Hacc as [Hacc|[<-|[]]]; auto.
Qed.

Lemma wedding_entries_nil l :
  wedding_entries l = [] <-> Forall (fun e => is_wedding_entry e = false) l.
Proof.
  unfold wedding_entries. induction l as [|e l IH]; simpl.
  - split; [constructor | reflexivity].
  - destruct (is_wedding_entry e) eqn:E.
    + split; [discriminate|]. intros H. inversion H; congruence.
    + rewrite IH. split; [now constructor | intros H; now inversion H].
Qed.

Lemma not_wedding_not_scheduled l d :
  In d expected_dates ->
  wedding_entries l = [] -> already_scheduled d l = false.
Proof.
  intros Hd H. apply wedding_entries_nil in H.
  induction l as [|[[d1 m1] b1] l IH]; simpl; [reflexivity|].
  inversion H as [|? ? He Hl]; subst.
  unfold is_wedding_entry in He.
  assert (E : within_minute d d1 = false).
  { apply not_true_is_false. intros C.
    assert (X : existsb (fun expected => within_minute expected d1)
                  expected_dates = true)
      by (apply existsb_exists; eauto).
    unfold target_date in He. cbn [fst] in He. congruence. }
  rewrite E. now apply IH.
Qed.

Lemma not_wedding_not_exists l :
  wedding_entries l = [] -> schedule_exists l = false.
Proof.
  intros H. unfold schedule_exists.
  destruct (length l =? 0)%nat; [reflexivity|].
  unfold expected_dates. cbn [any_expected_date_exists].
  rewrite <- !already_scheduled_expected.
  rewrite !(not_wedding_not_scheduled l) by (assumption || (simpl; tauto)).
  reflexivity.
Qed.

(** Seeding a process that has no wedding reminder appends the three. *)
Lemma first_seeding env w :
  schedule_initialized w = false ->
  wedding_entries (scheduled_messages w) = [] ->
  scheduled_messages (after_seed env w) =
  scheduled_messages w ++ [week_reminder; day_reminder; morning_reminder].
Proof.
  intros Hinit Hnone.
  pose proof (fun d Hd => not_wedding_not_scheduled _ d Hd Hnone) as Hfree.
  assert (Happ : forall v target text buttons,
            already_scheduled target (scheduled_messages v) = false ->
            scheduled_messages (after_add env target text buttons v) =
            scheduled_messages v ++ [(target, text, buttons)]).
  { intros v target text buttons H. now rewrite after_add_messages, H. }
  unfold after_seed. rewrite Hinit.
  set (w1 := after_add env (wedding_date - days 7) week_message false w).
  set (w2 := after_add env (wedding_date - days 1) day_message false w1).
  assert (H1 : scheduled_messages w1 = scheduled_messages w ++ [week_reminder]).
  { apply Happ, Hfree. simpl; tauto. }
  assert (H2 : scheduled_messages w2 = scheduled_messages w1 ++ [day_reminder]).
  { apply Happ. rewrite H1, already_scheduled_is_duplicate, is_duplicate_app.
    rewrite <- already_scheduled_is_duplicate, Hfree by (simpl; tauto).
    reflexivity. }
  rewrite Happ.
  - rewrite H2, H1, <- !app_assoc. reflexivity.
  - rewrite H2, H1, already_scheduled_is_duplicate, !is_duplicate_app.
    rewrite <- already_scheduled_is_duplicate, Hfree by (simpl; tauto).
    reflexivity.
Qed.

Lemma wedding_entries_of_reminders :
  wedding_entries [week_reminder; day_reminder; morning_reminder] =
  [week_reminder; day_reminder; morning_reminder].
Proof. reflexivity. Qed.



(** The file of [week_reminder_gone] is the one the program itself leaves:
    a first start on no file, then a tick six days before the wedding. *)
Lemma week_reminder_gone_arises :
  schedule_file
    (snd (run (startup ;; check_scheduled_messages (wedding_date - days 6))
            example_env fresh_world)) =
  schedule_file week_reminder_gone.
Proof. vm_compute. reflexivity. Qed.


(** ** The cursor of the polling loop *)

Lemma run_get_updates env w offset timeout :
  run (get_updates offset timeout) env w =
  (Ret (polled (http env (length (trace w)))),
   emit (Post (GetUpdates (truthy_id (Some offset)) timeout)) w).
Proof.
  unfold get_updates, requests_call, response_json, subscript, polled, run,
    bind, try_except, get, ask, modify, ret, raise.
  cbv beta.
  destruct (http env (length (trace w))) as [| |status [[[[|]|] [result|]]|]];
    simpl; try reflexivity; destruct (status =? 200); reflexivity.
Qed.

Lemma last_update_id_emit_all effects w :
  last_update_id (emit_all effects w) = last_update_id w.
Proof.
  unfold emit_all. revert w.
  induction effects as [|e effects IH]; intros w; simpl; [reflexivity|].
  now rewrite IH.
Qed.

Lemma last_update_id_after_tick env now w :
  last_update_id (after_tick env now w) = last_update_id w.
Proof.
  unfold after_tick.
  destruct (existsb (due now) (scheduled_messages w));
    cbn [after_save last_update_id set_schedule_file emit
           set_scheduled_messages];
    apply last_update_id_emit_all.
Qed.

Lemma handle_callback_query_outcome env w callback_query :
  match cq_data callback_query with
  | None =>
      run (handle_callback_query callback_query) env w =
      (Raise (KeyError "data"), w)
  | Some _ =>
      exists w',
        run (handle_callback_query callback_query) env w = (Ret tt, w') /\
        last_update_id w' = last_update_id w
  end.
Proof.
  unfold handle_callback_query.
  destruct (cq_data callback_query) as [data|]; cbn [subscript];
    [|reflexivity].
  rewrite run_bind, run_ret.
  destruct (pystr_in data topics).
  - call run_answer_callback_query.
    destruct (send_succeeds _); [returned|].
    call run_answer_callback_query. returned.
  - call run_answer_callback_query. returned.
Qed.

Lemma handle_text_command_outcome env w message :
  match msg_from message with
  | None =>
      run (handle_text_command message) env w = (Raise (KeyError "from"), w)
  | Some _ =>
      exists w',
        run (handle_text_command message) env w = (Ret tt, w') /\
        last_update_id w' = last_update_id w
  end.
Proof.
  unfold handle_text_command. rewrite run_bind, run_ask.
  destruct (msg_from message) as [user|]; cbn [subscript]; [|reflexivity].
  rewrite run_bind, run_ret.
  destruct (negb _); [returned|].
  destruct (command_of _) as [command|]; [|returned].
  destruct (pystr_in command topics).
  - call run_send_message. returned.
  - destruct (pystr_eqb command _); [|returned].
    call run_send_message. returned.
Qed.

Lemma last_update_id_after_member env member w :
  last_update_id (after_member env member w) = last_update_id w.
Proof.
  unfold after_member. destruct (is_human member); [|reflexivity].
  destruct (_ =? _); reflexivity.
Qed.

Lemma process_new_members_cursor env message w :
  exists w',
    run (process_new_members message) env w = (Ret tt, w') /\
    last_update_id w' = last_update_id w.
Proof.
  unfold process_new_members.
  destruct (msg_new_chat_members message) as [members|];
    [|exists w; split; reflexivity].
  revert w. induction members as [|member members IH]; intros w.
  - exists w. split; reflexivity.
  - destruct (IH (after_member env member w)) as (w' & Hrun & Hid).
    exists w'. cbn [for_each]. rewrite run_bind, run_welcome_member.
    split; [exact Hrun|]. now rewrite Hid, last_update_id_after_member.
Qed.

(** The handler of an update moves the cursor to the update first; it then
    returns, or raises on the updates singled out by [update_raises]. *)
Lemma handle_update_outcome env w update :
  exists o w',
    run (handle_update update) env w = (o, w') /\
    last_update_id w' = update_id update /\
    (update_raises env update = false -> o = Ret tt) /\
    (update_raises env update = true -> exists e, o = Raise e).
Proof.
  unfold handle_update, update_raises. rewrite run_bind, run_modify.
  set (v := set_last_update_id (update_id update) w).
  assert (Hv : last_update_id v = update_id update) by reflexivity.
  destruct (upd_callback_query update) as [callback_query|].
  - pose proof (handle_callback_query_outcome env v callback_query) as H.
    destruct (cq_data callback_query).
    + destruct H as (w' & -> & Hid). exists (Ret tt), w'.
      repeat split; [congruence | discriminate].
    + rewrite H. exists (Raise (KeyError "data")), v.
      repeat split; [discriminate | eauto].
  - destruct (upd_message update) as [message|].
    + rewrite run_bind, run_ask.
      destruct (pystr_eqb _ _); cbn [andb].
      * destruct (process_new_members_cursor env message v)
          as (v1 & Hrun & Hid).
        rewrite run_bind, Hrun.
        destruct (msg_text message).
        -- pose proof (handle_text_command_outcome env v1 message) as H.
           destruct (msg_from message).
           ++ destruct H as (w' & -> & Hid'). exists (Ret tt), w'.
              repeat split; [congruence | discriminate].
           ++ rewrite H. exists (Raise (KeyError "from")), v1.
              repeat split; [congruence | discriminate | eauto].
        -- exists (Ret tt), v1.
           repeat split; [congruence | discriminate].
      * exists (Ret tt), v. repeat split. discriminate.
    + exists (Ret tt), v. repeat split. discriminate.
Qed.

Lemma handle_updates_outcome env updates :
  forall w,
    exists o w',
      run (for_each updates handle_update) env w = (o, w') /\
      last_update_id w' = cursor_after env updates (last_update_id w).
Proof.
  induction updates as [|update updates IH]; intros w.
  - exists (Ret tt), w. split; reflexivity.
  - destruct (handle_update_outcome env w update)
      as (o & w1 & Hrun & Hid & Hret & Hraise).
    cbn [for_each cursor_after]. rewrite run_bind, Hrun.
    destruct (update_raises env update).
    + destruct Hraise as [e ->]; [reflexivity|].
      exists (Raise e), w1. split; [reflexivity | exact Hid].
    + rewrite Hret by reflexivity.
      destruct (IH w1) as (o' & w' & Hrun' & Hid').
      exists o', w'. split; [exact Hrun'|]. now rewrite Hid', Hid.
Qed.

(** One turn of the loop never raises, and leaves the cursor where the
    [for] loop left it. *)
Lemma loop_iteration_cursor env w now :
  exists w',
    run (loop_iteration now) env w = (Ret tt, w') /\
    last_update_id w' =
    cursor_after env (polled (http env (length (trace w)))) (last_update_id w).
Proof.
  unfold loop_iteration, process_updates.
  rewrite run_try_except, run_bind, run_get, run_bind, run_get_updates.
  set (v := emit _ w).
  destruct (handle_updates_outcome env (polled (http env (length (trace w)))) v)
    as (o & w1 & Hrun & Hid).
  change (last_update_id v) with (last_update_id w) in Hid.
  rewrite run_bind, Hrun. destruct o as [[]|e].
  - rewrite run_bind, run_check_scheduled_messages.
    unfold sleep. rewrite run_modify. eexists. split; [reflexivity|].
    cbn [last_update_id emit]. now rewrite last_update_id_after_tick.
  - unfold sleep. rewrite run_modify. eexists. split; [reflexivity|].
    exact Hid.
Qed.

Lemma last_cons_default {A} (l : list A) :
  forall a d, last (a :: l) d = last l a.
Proof.
  induction l as [|b l IH]; intros a d; [reflexivity|].
  change (last (a :: b :: l) d) with (last (b :: l) d).
  now rewrite !IH.
Qed.

Lemma cursor_after_none_raises env updates :
  forall cursor,
    forallb (fun u => negb (update_raises env u)) updates = true ->
    cursor_after env updates cursor = last (map update_id updates) cursor.
Proof.
  induction updates as [|u updates IH]; intros cursor H; [reflexivity|].
  cbn [forallb] in H. apply andb_true_iff in H as [Hu Hrest].
  apply negb_true_iff in Hu. cbn [cursor_after map].
  rewrite Hu, IH by exact Hrest. now rewrite last_cons_default.
Qed.

Lemma cursor_after_first_raise env before u rest :
  forall cursor,
    forallb (fun x => negb (update_raises env x)) before = true ->
    update_raises env u = true ->
    cursor_after env (before ++ u :: rest) cursor = update_id u.
Proof.
  induction before as [|x before IH]; intros cursor H Hu.
  - cbn [app cursor_after]. now rewrite Hu.
  - cbn [forallb] in H. apply andb_true_iff in H as [Hx Hrest].
    apply negb_true_iff in Hx. cbn [app cursor_after]. rewrite Hx.
    now apply IH.
Qed.

(** C3, as the code has it.  The handler of an update first moves the
    cursor to the identifier of that update; it then returns -- also when
    the API refuses or fails every request it makes, which it absorbs --
    or raises, which it does exactly on the updates of [update_raises].
    One turn of the loop never raises.  When no handler raises the cursor
    ends at the identifier of the last update of the batch (and stays put
    on an empty batch): at 9 from cursor 4 with the batch 5, 6, 9.  When a
    handler raises, the rest of the batch is skipped and the cursor ends
    at the identifier of the update whose handler raised. *)
Theorem cursor_follows_the_batch :
  forall env w now,
    let updates := polled (http env (length (trace w))) in
    (forall update v,
       exists o v',
         run (handle_update update) env v = (o, v') /\
         last_update_id v' = update_id update /\
         (update_raises env update = false -> o = Ret tt) /\
         (update_raises env update = true -> exists e, o = Raise e)) /\
    exists w',
      run (loop_iteration now) env w = (Ret tt, w') /\
      (forallb (fun u => negb (update_raises env u)) updates = true ->
         last_update_id w' = last (map update_id updates) (last_update_id w)) /\
      (forall before u rest,
         updates = before ++ u :: rest ->
         forallb (fun x => negb (update_raises env x)) before = true ->
         update_raises env u = true ->
         last_update_id w' = update_id u) /\
      (last_update_id w = 4 ->
       map update_id updates = [5; 6; 9] ->
       forallb (fun u => negb (update_raises env u)) updates = true ->
       last_update_id w' = 9).
Proof.
  intros env w now updates. split.
  - intros update v. apply handle_update_outcome.
  - destruct (loop_iteration_cursor env w now) as (w' & Hrun & Hid).
    fold updates in Hid. exists w'. split; [exact Hrun|].
    split; [|split].
    + intros H. rewrite Hid. now apply cursor_after_none_raises.
    + intros before u rest Hsplit Hbefore Hu. rewrite Hid, Hsplit.
      now apply cursor_after_first_raise.
    + intros H4 Hids Hnone. rewrite Hid.
      rewrite cursor_after_none_raises by exact Hnone.
      now rewrite Hids.
Qed.

Lemma cursor_follows_the_batch_witness :
  exists w',
    run (loop_iteration noon) (env_polling batch_of_presses)
      (world_at_cursor 4) = (Ret tt, w') /\
    last_update_id w' = 9.
Proof.
  destruct (cursor_follows_the_batch (env_polling batch_of_presses)
              (world_at_cursor 4) noon)
    as (_ & w' & Hrun & _ & _ & Hnine).
  exists w'. split; [exact Hrun|].
  apply Hnine; reflexivity.
Defined.

(** C3, as it is worded, fails: with the batch 5, 6, 9 from cursor 4, a
    press that carries no [data] as update 5 makes its handler raise
    [KeyError]; the turn ends there and the cursor is 5, not 9. *)
Lemma cursor_stops_where_a_handler_raises :
  ~ (forall env w now w',
       run (loop_iteration now) env w = (Ret tt, w') ->
       last_update_id w = 4 ->
       map update_id (polled (http env (length (trace w)))) = [5; 6; 9] ->
       last_update_id w' = 9).
Proof.
  intros H.
  destruct (loop_iteration_cursor (env_polling batch_with_bare_press)
              (world_at_cursor 4) noon) as (w' & Hrun & Hid).
  apply H in Hrun; [|reflexivity|reflexivity].
  rewrite Hrun in Hid. vm_compute in Hid. discriminate.
Qed.

(** ** The statements at concrete inputs *)

Lemma check_scheduled_messages_sends_and_removes_due_witness :
  exists w',
    run (check_scheduled_messages noon) example_env one_due_world
      = (Ret tt, w') /\
    scheduled_messages w' = [] /\
    run (check_scheduled_messages noon) example_env w' = (Ret tt, w').
Proof.
  destruct (check_scheduled_messages_sends_and_removes_due example_env
              one_due_world noon) as (w' & Hrun & _ & _ & Hone).
  destruct (Hone _ eq_refl eq_refl) as (Hempty & _ & Hagain).
  exists w'. repeat split; assumption.
Defined.

Lemma answer_callback_query_truncates_witness :
  exists success sent,
    run (answer_callback_query (utf8 "q") long_text true) example_env
      fresh_world =
      (Ret success,
       emit (Post (AnswerCallbackQuery (utf8 "q") sent true)) fresh_world) /\
    length sent = 200%nat /\ skipn 197 sent = utf8 "...".
Proof.
  destruct (answer_callback_query_truncates example_env fresh_world
              (utf8 "q") long_text true)
    as (success & sent & Hrun & _ & _ & _ & H250).
  exists success, sent. split; [exact Hrun|]. apply H250. reflexivity.
Defined.

Lemma process_new_members_milestones_witness :
  exists w' w'',
    run (for_each twenty_four_joins process_new_members) example_env
      fresh_world = (Ret tt, w') /\
    trace w' = [] /\
    run (process_new_members (join_message "Cy")) example_env w'
      = (Ret tt, w'') /\
    trace w'' = [Post (broadcast example_env)].
Proof.
  destruct (process_new_members_milestones example_env fresh_world)
    as (_ & Hbatch).
  destruct (Hbatch twenty_four_joins) as (w' & Hrun & _ & _ & H24).
  destruct (H24 eq_refl eq_refl) as (Hquiet & Hnext).
  destruct (Hnext (join_message "Cy") eq_refl) as (w'' & Hrun' & _ & Htrace).
  exists w', w''. repeat split; assumption.
Defined.

Lemma stored_entries_stay_a_minute_apart_witness :
  exists w',
    run (add_scheduled_message (seconds 400) (utf8 "note") false) example_env
      (after_dedup example_env clustered_world) = (Ret tt, w') /\
    reachable example_env w' /\
    pairwise_separated (scheduled_messages w').
Proof.
  eexists. split; [apply run_add_scheduled_message|].
  assert (H : reachable example_env
                (after_add example_env (seconds 400) (utf8 "note") false
                   (after_dedup example_env clustered_world))).
  { eapply reach_add; [|apply run_add_scheduled_message].
    eapply reach_dedup. apply run_remove_duplicate_schedules. }
  split; [exact H|].
  exact (proj1 (stored_entries_stay_a_minute_apart example_env _ H)).
Defined.

(* ===================================================================== *)
(** * Further properties of the code *)
(* ===================================================================== *)

(** ** Outbound calls and the poll *)

(** X1.  [send_message] never raises: it posts one request (a zero or
    absent [reply_to_message_id] is not passed on) and returns a boolean,
    which is true exactly when the API answered with status 200 and a JSON
    body whose [ok] is true.  A connection error, a timeout, another
    status, a body that is not JSON or has no [ok] all give [False]. *)
Theorem send_message_reports_failure_as_false :
  forall env w chat text markup reply_to,
    exists success,
      run (send_message chat text markup reply_to) env w =
        (Ret success,
         emit (Post (SendMessage chat text markup
                       match reply_to with
                       | Some 0 | None => None
                       | Some id => Some id
                       end)) w) /\
      (success = true <->
       exists body,
         http env (length (trace w)) = Response 200 (Some body) /\
         body_ok body = Some true).
Proof.
  intros env w chat text markup reply_to.
  exists (send_succeeds (http env (length (trace w)))). split.
  - rewrite run_send_message. destruct reply_to as [[| |]|]; reflexivity.
  - unfold send_succeeds.
    destruct (http env (length (trace w))) as [| |status [body|]].
    + split; [discriminate | intros (b & H & _); discriminate].
    + split; [discriminate | intros (b & H & _); discriminate].
    + destruct (Z.eqb_spec status 200) as [->|Hne].
      * destruct body as [[[|]|] result]; cbn [get_default body_ok].
        -- split; [eauto | reflexivity].
        -- split; [discriminate | intros (b & [= <-] & H); discriminate].
        -- split; [discriminate | intros (b & [= <-] & H); discriminate].
      * split; [discriminate | intros (b & [= E _] & _); contradiction].
    + split; [discriminate | intros (b & H & _); discriminate].
Qed.

(** X2.  [get_updates] never raises: it posts one [getUpdates] request (a
    zero offset is not passed on) and returns the [result] of the answer
    when the status is 200, the body is JSON, and it has a true [ok] and a
    [result]; in every other case -- connection error, timeout, another
    status, a body that is not JSON, a missing key, a false [ok] -- it
    returns the empty list. *)
Theorem get_updates_never_raises :
  forall env w offset timeout,
    exists updates,
      run (get_updates offset timeout) env w =
        (Ret updates,
         emit (Post (GetUpdates (if offset =? 0 then None else Some offset)
                       timeout)) w) /\
      (forall result,
         http env (length (trace w)) =
           Response 200 (Some (mkBody (Some true) (Some result))) ->
         updates = result) /\
      (updates <> [] ->
       exists body,
         http env (length (trace w)) = Response 200 (Some body) /\
         body_ok body = Some true /\ body_result body = Some updates).
Proof.
  intros env w offset timeout.
  exists (polled (http env (length (trace w)))).
  split; [apply run_get_updates|]. unfold polled. split.
  - intros result ->. reflexivity.
  - destruct (http env (length (trace w))) as [| |status [body|]];
      try (intros H; now contradiction H).
    destruct (Z.eqb_spec status 200) as [->|Hne];
      [|intros H; now contradiction H].
    destruct body as [[[|]|] [result|]]; cbn [body_ok body_result];
      try (intros H; now contradiction H).
    intros _. eexists. repeat split.
Qed.

(** ** Topics and their content *)

Lemma pystr_eqb_eq a :
  forall b, pystr_eqb a b = true <-> a = b.
Proof.
  induction a as [|x a IH]; intros [|y b]; simpl;
    try (split; [discriminate | discriminate]); [tauto|].
  rewrite andb_true_iff, N.eqb_eq, IH. split.
  - intros [-> ->]. reflexivity.
  - intros [= -> ->]. now split.
Qed.

Lemma pystr_in_In x l : pystr_in x l = true <-> In x l.
Proof.
  unfold pystr_in. rewrite existsb_exists. split.
  - intros (y & Hy & E). apply pystr_eqb_eq in E. now subst.
  - intros H. exists x. split; [exact H | now apply pystr_eqb_eq].
Qed.

Lemma get_info_content_short info_type :
  (length (get_info_content info_type) <=? 200)%nat = true.
Proof.
  unfold get_info_content, content. cbn [dict_lookup].
  repeat (destruct (pystr_eqb info_type _);
          [cbn [get_default]; vm_compute; reflexivity|]).
  vm_compute. reflexivity.
Qed.

(** X3.  Whatever key it is asked for, [get_info_content] returns a text of
    at most 200 characters -- each of the six entries of the dictionary
    and the default text -- so [answer_callback_query] posts it as it is,
    without truncation. *)
Theorem info_content_fits_the_popup :
  forall env w id info_type alert,
    (length (get_info_content info_type) <= 200)%nat /\
    exists success,
      run (answer_callback_query id (get_info_content info_type) alert) env w =
      (Ret success,
       emit (Post (AnswerCallbackQuery id (get_info_content info_type) alert)) w).
Proof.
  intros env w id info_type alert.
  pose proof (get_info_content_short info_type) as H.
  apply Nat.leb_le in H. split; [exact H|].
  exists (send_succeeds (http env (length (trace w)))).
  rewrite run_answer_callback_query. unfold popup_text.
  apply Nat.ltb_ge in H. now rewrite H.
Qed.

(** X4.  The list of topics the handlers accept and the keys of the
    dictionary of [get_info_content] are the same six strings: a key is
    accepted by the handlers exactly when the dictionary has an entry for
    it, so an accepted topic never gets the default text. *)
Theorem accepted_topics_have_content :
  forall data,
    pystr_in data topics = true <->
    exists text,
      dict_lookup data content = Some text /\ get_info_content data = text.
Proof.
  intros data. unfold get_info_content, pystr_in, topics, content.
  cbn [existsb dict_lookup].
  repeat (destruct (pystr_eqb data _);
          [cbn [orb get_default]; split; [eauto | reflexivity]|]).
  cbn [orb]. split; [discriminate | intros (text & H & _); discriminate].
Qed.

Lemma fallback_fits data :
  In data topics ->
  popup_text (utf8 "✅ " ++ title data ++ utf8 " info sent!") =
  utf8 "✅ " ++ title data ++ utf8 " info sent!".
Proof.
  intros H. unfold topics in H. cbn [In] in H.
  repeat (destruct H as [<-|H]; [vm_compute; reflexivity|]).
  contradiction.
Qed.

(** X5.  [handle_callback_query] on a press that carries [data] never
    raises and answers it once or twice.  For one of the six topics the
    first answer is the content of the topic, whole, as an alert; only
    when that answer fails a second one follows, the short acknowledgment
    with the capitalised topic, not as an alert, and nothing more whether
    it succeeds or not.  For any other [data] the single answer is
    "Unknown option", not as an alert. *)
Theorem handle_callback_query_answers_once_or_twice :
  forall env w id data sender,
    exists w',
      run (handle_callback_query (mkCallbackQuery id (Some data) sender)) env w
        = (Ret tt, w') /\
      trace w' =
        trace w ++
        (if pystr_in data topics then
           Post (AnswerCallbackQuery id (get_info_content data) true)
           :: (if send_succeeds (http env (length (trace w))) then []
               else [Post (AnswerCallbackQuery id
                             (utf8 "✅ " ++ title data ++ utf8 " info sent!")
                             false)])
         else [Post (AnswerCallbackQuery id (utf8 "Unknown option") false)]) /\
      last_update_id w' = last_update_id w /\
      member_count w' = member_count w /\
      scheduled_messages w' = scheduled_messages w.
Proof.
  intros env w id data sender. unfold handle_callback_query.
  cbn [cq_data cq_id subscript]. rewrite run_bind, run_ret.
  destruct (pystr_in data topics) eqn:Hin.
  - call run_answer_callback_query.
    assert (Hfit : popup_text (get_info_content data) = get_info_content data).
    { unfold popup_text.
      pose proof (get_info_content_short data) as Hlen.
      apply Nat.leb_le, Nat.ltb_ge in Hlen. now rewrite Hlen. }
    rewrite Hfit.
    destruct (send_succeeds (http env (length (trace w)))).
    + eexists. split; [reflexivity|]. now repeat split.
    + call run_answer_callback_query.
      rewrite fallback_fits by now apply pystr_in_In.
      eexists. split; [reflexivity|].
      cbn [trace emit last_update_id member_count scheduled_messages].
      rewrite <- app_assoc. now repeat split.
  - call run_answer_callback_query.
    eexists. split; [reflexivity|]. now repeat split.
Qed.

(** ** The rendering of chat identifiers *)

Lemma utf8_decode_ascii bs :
  Forall (fun b => (b < 128)%N) bs -> utf8_decode bs 0 0%N = bs.
Proof.
  induction 1 as [|b bs Hb _ IH]; [reflexivity|].
  cbn [utf8_decode]. apply N.ltb_lt in Hb. now rewrite Hb, IH.
Qed.

Lemma digits_are_ascii d :
  Forall (fun b => (b < 128)%N)
    (map N_of_ascii (list_ascii_of_string (NilEmpty.string_of_uint d))).
Proof.
  induction d; cbn [NilEmpty.string_of_uint list_ascii_of_string map];
    constructor; try exact IHd; reflexivity.
Qed.

Lemma decimal_is_ascii d :
  Forall (fun b => (b < 128)%N)
    (map N_of_ascii (list_ascii_of_string (NilZero.string_of_int d))).
Proof.
  assert (H : forall u, Forall (fun b => (b < 128)%N)
            (map N_of_ascii (list_ascii_of_string (NilZero.string_of_uint u)))).
  { intros u. destruct u; try apply digits_are_ascii.
    repeat constructor. }
  destruct d as [u|u]; cbn [NilZero.string_of_int]; [apply H|].
  cbn [list_ascii_of_string map]. constructor; [reflexivity | apply H].
Qed.

Lemma N_of_ascii_inj a b : N_of_ascii a = N_of_ascii b -> a = b.
Proof.
  intros H. rewrite <- (ascii_N_embedding a), <- (ascii_N_embedding b).
  now rewrite H.
Qed.

Lemma map_N_of_ascii_inj l1 :
  forall l2, map N_of_ascii l1 = map N_of_ascii l2 -> l1 = l2.
Proof.
  induction l1 as [|a l1 IH]; intros [|b l2] H; try discriminate;
    [reflexivity|].
  injection H as Ha Hl. f_equal; [now apply N_of_ascii_inj | now apply IH].
Qed.

Lemma list_ascii_of_string_inj s t :
  list_ascii_of_string s = list_ascii_of_string t -> s = t.
Proof.
  intros H. rewrite <- (string_of_list_ascii_of_string s),
    <- (string_of_list_ascii_of_string t). now rewrite H.
Qed.

Lemma to_int_well_formed n :
  Z.to_int n <> Decimal.Pos Decimal.Nil /\ Z.to_int n <> Decimal.Neg Decimal.Nil.
Proof.
  destruct n as [|p|p]; cbn [Z.to_int]; split; try discriminate;
    intros [= H]; now apply (DecimalPos.Unsigned.to_uint_nonnil p).
Qed.

(** [str] tells integers apart. *)
Lemma str_of_int_inj a b : str_of_int a = str_of_int b -> a = b.
Proof.
  unfold str_of_int, utf8. intros H.
  rewrite !utf8_decode_ascii in H by apply decimal_is_ascii.
  apply map_N_of_ascii_inj, list_ascii_of_string_inj in H.
  destruct (to_int_well_formed a) as [Ha1 Ha2].
  destruct (to_int_well_formed b) as [Hb1 Hb2].
  apply (f_equal NilZero.int_of_string) in H.
  rewrite !NilZero.isi in H by assumption.
  injection H as H. now apply DecimalZ.to_int_inj.
Qed.

(** ** Text commands *)



(** ** What the handlers leave alone *)

Lemma schedule_untouched_refl w : schedule_untouched w w.
Proof. now repeat split. Qed.

Lemma schedule_untouched_trans w1 w2 w3 :
  schedule_untouched w1 w2 -> schedule_untouched w2 w3 ->
  schedule_untouched w1 w3.
Proof.
  intros (H1 & H2 & H3) (K1 & K2 & K3). repeat split; congruence.
Qed.

Lemma handle_callback_query_frame env w callback_query :
  exists o w',
    run (handle_callback_query callback_query) env w = (o, w') /\
    schedule_untouched w w' /\ member_count w' = member_count w.
Proof.
  unfold handle_callback_query.
  destruct (cq_data callback_query) as [data|]; cbn [subscript].
  2:{ exists (Raise (KeyError "data")), w. now repeat split. }
  rewrite run_bind, run_ret. destruct (pystr_in data topics).
  - call run_answer_callback_query.
    destruct (send_succeeds _).
    + do 2 eexists. split; [reflexivity|]. now repeat split.
    + call run_answer_callback_query.
      do 2 eexists. split; [reflexivity|]. now repeat split.
  - call run_answer_callback_query.
    do 2 eexists. split; [reflexivity|]. now repeat split.
Qed.

Lemma handle_text_command_frame env w message :
  exists o w',
    run (handle_text_command message) env w = (o, w') /\
    schedule_untouched w w' /\ member_count w' = member_count w.
Proof.
  unfold handle_text_command. rewrite run_bind, run_ask.
  destruct (msg_from message) as [user|]; cbn [subscript].
  2:{ exists (Raise (KeyError "from")), w. now repeat split. }
  rewrite run_bind, run_ret.
  destruct (negb _); [exists (Ret tt), w; now repeat split|].
  destruct (command_of _) as [command|];
    [|exists (Ret tt), w; now repeat split].
  destruct (pystr_in command topics).
  - call run_send_message. do 2 eexists. split; [reflexivity|].
    now repeat split.
  - destruct (pystr_eqb command _); [|exists (Ret tt), w; now repeat split].
    call run_send_message. do 2 eexists. split; [reflexivity|].
    now repeat split.
Qed.

Lemma after_member_frame env member w :
  schedule_untouched w (after_member env member w) /\
  member_count w <= member_count (after_member env member w).
Proof.
  unfold after_member. destruct (is_human member);
    [|split; [apply schedule_untouched_refl | lia]].
  destruct (_ =? _); split; try (now repeat split);
    cbn [member_count emit set_member_count]; lia.
Qed.

Lemma process_new_members_frame env message w :
  exists w',
    run (process_new_members message) env w = (Ret tt, w') /\
    schedule_untouched w w' /\ member_count w <= member_count w'.
Proof.
  unfold process_new_members.
  destruct (msg_new_chat_members message) as [members|].
  2:{ exists w. split; [reflexivity|].
      split; [apply schedule_untouched_refl | lia]. }
  revert w. induction members as [|member members IH]; intros w.
  - exists w. split; [reflexivity|].
    split; [apply schedule_untouched_refl | lia].
  - destruct (IH (after_member env member w)) as (w' & Hrun & Hs & Hc).
    destruct (after_member_frame env member w) as [Hs1 Hc1].
    exists w'. cbn [for_each]. call run_welcome_member.
    split; [exact Hrun|].
    split; [exact (schedule_untouched_trans _ _ _ Hs1 Hs) | lia].
Qed.

Lemma handle_update_frame env w update :
  exists o w',
    run (handle_update update) env w = (o, w') /\
    schedule_untouched w w' /\ member_count w <= member_count w'.
Proof.
  unfold handle_update. rewrite run_bind, run_modify.
  set (v := set_last_update_id (update_id update) w).
  assert (Hs : schedule_untouched w v) by now repeat split.
  assert (Hc : member_count v = member_count w) by reflexivity.
  clearbody v.
  destruct (upd_callback_query update) as [callback_query|].
  - destruct (handle_callback_query_frame env v callback_query)
      as (o & w' & Hrun & Hs' & Hc').
    exists o, w'. split; [exact Hrun|].
    split; [exact (schedule_untouched_trans _ _ _ Hs Hs') | lia].
  - destruct (upd_message update) as [message|];
      [|exists (Ret tt), v; split; [reflexivity|]; split; [exact Hs | lia]].
    rewrite run_bind, run_ask.
    destruct (pystr_eqb _ _);
      [|exists (Ret tt), v; split; [reflexivity|]; split; [exact Hs | lia]].
    destruct (process_new_members_frame env message v)
      as (v1 & Hrun1 & Hs1 & Hc1).
    pose proof (schedule_untouched_trans _ _ _ Hs Hs1) as Hs2.
    rewrite run_bind, Hrun1.
    destruct (msg_text message).
    + destruct (handle_text_command_frame env v1 message)
        as (o & w' & Hrun & Hs' & Hc').
      exists o, w'. split; [exact Hrun|].
      split; [exact (schedule_untouched_trans _ _ _ Hs2 Hs') | lia].
    + exists (Ret tt), v1. split; [reflexivity|]. split; [exact Hs2 | lia].
Qed.

Lemma handle_updates_frame env updates :
  forall w,
    exists o w',
      run (for_each updates handle_update) env w = (o, w') /\
      schedule_untouched w w' /\ member_count w <= member_count w'.
Proof.
  induction updates as [|update updates IH]; intros w.
  - exists (Ret tt), w. split; [reflexivity|].
    split; [apply schedule_untouched_refl | lia].
  - destruct (handle_update_frame env w update)
      as (o & w1 & Hrun & Hs & Hc).
    cbn [for_each]. rewrite run_bind, Hrun. destruct o as [[]|e].
    + destruct (IH w1) as (o' & w' & Hrun' & Hs' & Hc').
      exists o', w'. split; [exact Hrun'|].
      split; [exact (schedule_untouched_trans _ _ _ Hs Hs') | lia].
    + exists (Raise e), w1. split; [reflexivity|]. now split.
Qed.

(** X7.  Handling a batch of updates -- button presses, text commands, new
    members, whatever the API answers and whether or not a handler raises
    -- never touches the schedule: the stored messages, the schedule file
    and the initialisation flag are as before; and the member count never
    goes down. *)
Theorem handlers_leave_the_schedule_alone :
  forall env w updates,
    exists o w',
      run (for_each updates handle_update) env w = (o, w') /\
      scheduled_messages w' = scheduled_messages w /\
      schedule_file w' = schedule_file w /\
      schedule_initialized w' = schedule_initialized w /\
      member_count w <= member_count w'.
Proof.
  intros env w updates.
  destruct (handle_updates_frame env updates w)
    as (o & w' & Hrun & (H1 & H2 & H3) & Hc).
  exists o, w'. now repeat split.
Qed.

(** X8.  A message from any chat other than the configured group is
    ignored whatever it carries -- text, command, new members: the only
    effect of its update is that the cursor moves to it. *)
Theorem messages_of_other_chats_are_ignored :
  forall env w id message group,
    group_chat_id env = str_of_int group ->
    msg_chat_id message <> group ->
    run (handle_update (mkUpdate id None (Some message))) env w =
    (Ret tt, set_last_update_id id w).
Proof.
  intros env w id message group Hgroup Hother. unfold handle_update.
  cbn [update_id upd_callback_query upd_message].
  rewrite run_bind, run_modify, run_bind, run_ask.
  destruct (pystr_eqb (str_of_int (msg_chat_id message)) (group_chat_id env))
    eqn:E; [|reflexivity].
  apply pystr_eqb_eq in E. rewrite Hgroup in E.
  apply str_of_int_inj in E. contradiction.
Qed.

Lemma messages_of_other_chats_are_ignored_witness :
  run (handle_update (mkUpdate 12 None (Some (text_message 555 "/menu"))))
    example_env fresh_world = (Ret tt, set_last_update_id 12 fresh_world).
Proof.
  apply (messages_of_other_chats_are_ignored example_env fresh_world 12
           (text_message 555 "/menu") (-1001234)).
  - reflexivity.
  - discriminate.
Defined.

(** ** The store, further *)

(** X9.  [save_schedule] never raises and never changes the schedule in
    memory, also when the write fails; when the write succeeds,
    [load_schedule] then returns exactly the schedule that was in memory:
    what is saved is what is loaded. *)
Theorem save_then_load_round_trip :
  forall env w,
    exists w1,
      run save_schedule env w = (Ret tt, w1) /\
      scheduled_messages w1 = scheduled_messages w /\
      trace w1 = trace w ++ [Save (scheduled_messages w)] /\
      (disk_write env (length (trace w)) = Written ->
       run load_schedule env w1 = (Ret (scheduled_messages w), w1)).
Proof.
  intros env w. exists (after_save env w).
  split; [apply run_save_schedule|]. split; [reflexivity|].
  split; [reflexivity|]. intros H.
  rewrite run_load_schedule. unfold after_save. rewrite H. reflexivity.
Qed.

Lemma save_then_load_round_trip_witness :
  exists w1,
    run save_schedule example_env spaced_world = (Ret tt, w1) /\
    run load_schedule example_env w1 =
      (Ret [entry_at 0; entry_at 60; entry_at 200], w1).
Proof.
  destruct (save_then_load_round_trip example_env spaced_world)
    as (w1 & Hrun & _ & _ & Hload).
  exists w1. split; [exact Hrun | exact (Hload eq_refl)].
Defined.

(** X10.  [add_scheduled_message] never raises.  When every stored entry
    is at least 60 seconds from the new time, the new entry goes to the
    end of the store, the entries before it unchanged, and the new store is
    handed to [save_schedule].  In every case the store afterwards holds
    an entry less than 60 seconds from the requested time, so asking for
    the same time again changes nothing. *)
Theorem add_scheduled_message_appends_and_covers :
  forall env w target text buttons,
    exists w',
      run (add_scheduled_message target text buttons) env w = (Ret tt, w') /\
      (far_from target (scheduled_messages w) ->
       scheduled_messages w' =
         scheduled_messages w ++ [(target, text, buttons)] /\
       trace w' = trace w ++ [Save (scheduled_messages w')]) /\
      (exists e,
         In e (scheduled_messages w') /\
         Z.abs (target - target_date e) < seconds 60) /\
      (forall text' buttons',
         run (add_scheduled_message target text' buttons') env w' =
         (Ret tt, w')).
Proof.
  intros env w target text buttons.
  exists (after_add env target text buttons w).
  split; [apply run_add_scheduled_message|].
  pose proof (already_after_add env target text buttons w) as Hcov.
  split; [|split].
  - intros Hfar. apply is_duplicate_false in Hfar.
    unfold after_add. rewrite already_scheduled_is_duplicate, Hfar.
    now split.
  - rewrite already_scheduled_is_duplicate in Hcov.
    now apply is_duplicate_true.
  - intros text' buttons'. rewrite run_add_scheduled_message.
    now rewrite after_add_noop.
Qed.

Lemma add_scheduled_message_appends_and_covers_witness :
  exists w',
    run (add_scheduled_message (seconds 400) (utf8 "note") false) example_env
      spaced_world = (Ret tt, w') /\
    scheduled_messages w' =
      [entry_at 0; entry_at 60; entry_at 200; entry_at 400].
Proof.
  destruct (add_scheduled_message_appends_and_covers example_env spaced_world
              (seconds 400) (utf8 "note") false)
    as (w' & Hrun & Happend & _).
  exists w'. split; [exact Hrun|]. apply Happend.
  repeat constructor; unfold far_apart; vm_compute; discriminate.
Defined.

Lemma expected_date_exists_true d l :
  expected_date_exists d l = true <->
  exists t, In t l /\ Z.abs (d - t) < seconds 60.
Proof.
  induction l as [|t l IH]; simpl.
  - split; [discriminate | intros (t & [] & _)].
  - destruct (within_minute d t) eqn:E.
    + split; [intros _ | reflexivity]. exists t. split; [now left|].
      unfold within_minute in E. now apply Z.ltb_lt.
    + rewrite IH. split.
      * intros (t' & Hin & H). exists t'. split; [now right | exact H].
      * intros (t' & [<-|Hin] & H).
        -- exfalso. unfold within_minute in E. apply Z.ltb_ge in E. lia.
        -- now exists t'.
Qed.

(** X11.  [check_if_schedule_exists] never raises and changes nothing; it
    answers [True] exactly when some stored entry is less than 60 seconds
    from the wedding morning (2025-09-27 08:00 in Singapore), from the
    same time one day before, or from the same time seven days before --
    whatever the text of that entry -- and [False] on the empty store. *)
Theorem check_if_schedule_exists_iff_near_an_expected_date :
  forall env w,
    exists answer,
      run check_if_schedule_exists env w = (Ret answer, w) /\
      (answer = true <->
       exists e offset,
         In e (scheduled_messages w) /\ In offset [7; 1; 0] /\
         Z.abs (wedding_date - days offset - target_date e) < seconds 60) /\
      (scheduled_messages w = [] -> answer = false).
Proof.
  intros env w. exists (schedule_exists (scheduled_messages w)).
  split; [apply run_check_if_schedule_exists|]. split.
  - unfold schedule_exists.
    destruct (scheduled_messages w) as [|e0 l] eqn:El.
    { split; [discriminate | intros (e & _ & [] & _)]. }
    cbn [length Nat.eqb]. unfold expected_dates.
    cbn [any_expected_date_exists].
    assert (Hd : forall d,
              expected_date_exists d (map target_date (e0 :: l)) = true <->
              exists e, In e (e0 :: l) /\ Z.abs (d - target_date e) < seconds 60).
    { intros d. rewrite expected_date_exists_true. split.
      - intros (t & Hin & H). apply in_map_iff in Hin as (e & <- & He).
        now exists e.
      - intros (e & He & H). exists (target_date e).
        split; [now apply in_map | exact H]. }
    replace wedding_date with (wedding_date - days 0) at 3 by (unfold days, seconds; lia).
    split.
    + intros H.
      destruct (expected_date_exists (wedding_date - days 7) _) eqn:E7.
      { apply Hd in E7 as (e & He & Hn). exists e, 7. cbn [In]. tauto. }
      destruct (expected_date_exists (wedding_date - days 1) _) eqn:E1.
      { apply Hd in E1 as (e & He & Hn). exists e, 1. cbn [In]. tauto. }
      destruct (expected_date_exists (wedding_date - days 0) _) eqn:E0;
        [|discriminate].
      apply Hd in E0 as (e & He & Hn). exists e, 0. cbn [In]. tauto.
    + intros (e & offset & He & Ho & Hn).
      assert (E : expected_date_exists (wedding_date - days offset)
                    (map target_date (e0 :: l)) = true)
        by (apply Hd; eauto).
      cbn [In] in Ho. destruct Ho as [<-|[<-|[<-|[]]]]; rewrite E;
        repeat (destruct (expected_date_exists _ _); try reflexivity).
  - intros H. now rewrite H.
Qed.

Lemma collect_unique_extends l :
  forall acc,
    exists kept, collect_unique l acc = acc ++ kept /\ subsequence kept l.
Proof.
  induction l as [|[[d m] b] l IH]; intros acc; cbn [collect_unique].
  - exists []. split; [now rewrite app_nil_r | constructor].
  - destruct (is_duplicate d acc).
    + destruct (IH acc) as (kept & -> & Hsub).
      exists kept. split; [reflexivity | now constructor].
    + destruct (IH (acc ++ [(d, m, b)])) as (kept & -> & Hsub).
      exists ((d, m, b) :: kept).
      split; [now rewrite <- app_assoc | now constructor].
Qed.

Lemma collect_unique_covers l :
  forall acc e,
    In e l -> is_duplicate (target_date e) (collect_unique l acc) = true.
Proof.
  induction l as [|[[d m] b] l IH]; intros acc e He; [destruct He|].
  cbn [collect_unique]. destruct He as [<-|He].
  - unfold target_date. cbn [fst].
    destruct (is_duplicate d acc) eqn:E.
    + destruct (collect_unique_extends l acc) as (kept & -> & _).
      now rewrite is_duplicate_app, E.
    + destruct (collect_unique_extends l (acc ++ [(d, m, b)]))
        as (kept & -> & _).
      rewrite !is_duplicate_app. cbn [is_duplicate].
      rewrite within_minute_refl. now rewrite orb_true_r.
  - destruct (is_duplicate d acc); now apply IH.
Qed.

(** X12.  [remove_duplicate_schedules] only leaves entries out: what it
    keeps are entries of the old store in their old order, the first entry
    is always kept, and no trigger time is lost altogether -- every entry
    of the old store is less than 60 seconds from an entry that is kept. *)
Theorem remove_duplicate_schedules_covers_every_entry :
  forall env w,
    exists w',
      run remove_duplicate_schedules env w = (Ret tt, w') /\
      subsequence (scheduled_messages w') (scheduled_messages w) /\
      hd_error (scheduled_messages w') = hd_error (scheduled_messages w) /\
      (forall e,
         In e (scheduled_messages w) ->
         exists kept,
           In kept (scheduled_messages w') /\
           Z.abs (target_date e - target_date kept) < seconds 60).
Proof.
  intros env w. exists (after_dedup env w).
  split; [apply run_remove_duplicate_schedules|].
  rewrite after_dedup_messages. split; [|split].
  - destruct (collect_unique_extends (scheduled_messages w) [])
      as (kept & -> & Hsub). exact Hsub.
  - destruct (scheduled_messages w) as [|[[d m] b] l]; [reflexivity|].
    cbn [collect_unique is_duplicate app].
    destruct (collect_unique_extends l [(d, m, b)]) as (kept & -> & _).
    reflexivity.
  - intros e He. apply is_duplicate_true. now apply collect_unique_covers.
Qed.

(** ** The dispatcher, further *)

Lemma nothing_due_after_tick now l :
  existsb (due now) (filter (not_due now) l) = false.
Proof.
  induction l as [|e l IH]; [reflexivity|]. cbn [filter].
  destruct (not_due now e) eqn:E; [|exact IH].
  cbn [existsb]. rewrite not_due_negb in E.
  apply negb_true_iff in E. now rewrite E.
Qed.

(** X13.  A second call of [check_scheduled_messages] at the same time
    does nothing at all, whatever the store: no entry is sent twice,
    nothing is written, the world is the one the first call left. *)
Theorem check_scheduled_messages_again_does_nothing :
  forall env w now,
    exists w1,
      run (check_scheduled_messages now) env w = (Ret tt, w1) /\
      run (check_scheduled_messages now) env w1 = (Ret tt, w1).
Proof.
  intros env w now. exists (after_tick env now w).
  split; [apply run_check_scheduled_messages|].
  rewrite run_check_scheduled_messages. f_equal.
  apply after_tick_idle. rewrite after_tick_messages.
  apply nothing_due_after_tick.
Qed.

Lemma filter_twice {A} (f g : A -> bool) l :
  filter g (filter f l) = filter (fun x => f x && g x) l.
Proof.
  induction l as [|x l IH]; [reflexivity|]. cbn [filter].
  destruct (f x); cbn [filter andb]; [|exact IH].
  destruct (g x); now rewrite IH.
Qed.



(** ** A turn of the loop, further *)

Lemma handle_updates_run env updates :
  forall w,
    exists o w',
      run (for_each updates handle_update) env w = (o, w') /\
      schedule_untouched w w' /\
      (existsb (update_raises env) updates = false -> o = Ret tt) /\
      (existsb (update_raises env) updates = true -> exists e, o = Raise e).
Proof.
  induction updates as [|update updates IH]; intros w.
  - exists (Ret tt), w. split; [reflexivity|].
    split; [apply schedule_untouched_refl|]. split; [reflexivity|discriminate].
  - destruct (handle_update_outcome env w update)
      as (o & w1 & Hrun & _ & Hret & Hraise).
    destruct (handle_update_frame env w update)
      as (o' & w1' & Hrun' & Hs & _).
    rewrite Hrun in Hrun'. injection Hrun' as <- <-.
    cbn [for_each existsb]. rewrite run_bind, Hrun.
    destruct (update_raises env update); cbn [orb].
    + destruct Hraise as [e ->]; [reflexivity|].
      exists (Raise e), w1. split; [reflexivity|].
      split; [exact Hs|]. split; [discriminate | eauto].
    + rewrite Hret by reflexivity.
      destruct (IH w1) as (o2 & w2 & Hrun2 & Hs2 & Hret2 & Hraise2).
      exists o2, w2. split; [exact Hrun2|].
      split; [exact (schedule_untouched_trans _ _ _ Hs Hs2)|].
      now split.
Qed.

(** X15.  One turn of the loop never raises and ends with a sleep.  When
    no handler of the polled batch raises, the dispatcher runs after the
    batch -- the store is left with the entries not yet due -- and the
    turn ends with a sleep of 1 second.  When a handler raises, the
    dispatcher is skipped for this turn -- the store and the schedule file
    are as before, even if entries are due -- and the turn ends with a
    sleep of 5 seconds. *)
Theorem loop_iteration_skips_the_dispatcher_when_a_handler_raises :
  forall env w now,
    let updates := polled (http env (length (trace w))) in
    exists w' before,
      run (loop_iteration now) env w = (Ret tt, w') /\
      (existsb (update_raises env) updates = false ->
         scheduled_messages w' =
           filter (fun e => now <? target_date e) (scheduled_messages w) /\
         trace w' = before ++ [Sleep 1]) /\
      (existsb (update_raises env) updates = true ->
         scheduled_messages w' = scheduled_messages w /\
         schedule_file w' = schedule_file w /\
         trace w' = before ++ [Sleep 5]).
Proof.
  intros env w now updates.
  unfold loop_iteration, process_updates.
  rewrite run_try_except, run_bind, run_get, run_bind, run_get_updates.
  fold updates. set (v := emit _ w).
  destruct (handle_updates_run env updates v)
    as (o & w1 & Hrun & (Hm & Hf & _) & Hret & Hraise).
  change (scheduled_messages v) with (scheduled_messages w) in Hm.
  change (schedule_file v) with (schedule_file w) in Hf.
  rewrite run_bind, Hrun.
  destruct (existsb (update_raises env) updates).
  - destruct Hraise as [e ->]; [reflexivity|].
    unfold sleep. rewrite run_modify.
    exists (emit (Sleep 5) w1), (trace w1).
    split; [reflexivity|]. split; [discriminate|]. intros _.
    now repeat split.
  - rewrite Hret by reflexivity.
    rewrite run_bind, run_check_scheduled_messages.
    unfold sleep. rewrite run_modify.
    exists (emit (Sleep 1) (after_tick env now w1)),
      (trace (after_tick env now w1)).
    split; [reflexivity|]. split; [|discriminate]. intros _.
    cbn [scheduled_messages emit trace].
    rewrite after_tick_messages, Hm. now split.
Qed.

Lemma cursor_after_is_an_id env updates :
  forall cursor,
    cursor_after env updates cursor = cursor \/
    exists u, In u updates /\ cursor_after env updates cursor = update_id u.
Proof.
  induction updates as [|u updates IH]; intros cursor; [now left|].
  cbn [cursor_after]. right.
  destruct (update_raises env u).
  - exists u. split; [now left | reflexivity].
  - destruct (IH (update_id u)) as [H|(u' & Hin & H)].
    + exists u. split; [now left | exact H].
    + exists u'. split; [now right | exact H].
Qed.



(** ** A start after the last reminder *)

Lemma after_add_fresh env target text buttons v :
  already_scheduled target (scheduled_messages v) = false ->
  scheduled_messages (after_add env target text buttons v) =
    scheduled_messages v ++ [(target, text, buttons)] /\
  trace (after_add env target text buttons v) =
    trace v ++ [Save (scheduled_messages v ++ [(target, text, buttons)])] /\
  schedule_initialized (after_add env target text buttons v) =
    schedule_initialized v.
Proof. intros H. unfold after_add. rewrite H. now repeat split. Qed.

Lemma after_init_no_schedule env w :
  stored_schedule (schedule_file w) = [] ->
  scheduled_messages (after_init env w) = [] /\
  trace (after_init env w) = trace w /\
  schedule_initialized (after_init env w) = false.
Proof. intros H. unfold after_init. rewrite H. now repeat split. Qed.

Lemma reminders_all_due now :
  wedding_date <= now ->
  due now week_reminder = true /\ due now day_reminder = true /\
  due now morning_reminder = true.
Proof.
  intros H. unfold due, week_reminder, day_reminder, morning_reminder,
    target_date. cbn [fst].
  rewrite !Z.leb_le. unfold days, seconds, microseconds_per_second. lia.
Qed.

(** A start on no schedule, then a tick after the wedding morning. *)
Lemma seed_then_send_all env w now :
  wedding_date <= now ->
  stored_schedule (schedule_file w) = [] ->
  let w1 := after_tick env now (after_seed env (after_init env w)) in
  scheduled_messages w1 = [] /\
  trace w1 = trace w ++ seed_and_send_all env /\
  ((forall n, disk_write env n = Written) -> schedule_file w1 = Pickled []).
Proof.
  intros Hnow Hnone. cbv zeta.
  destruct (after_init_no_schedule env w Hnone) as (Hm0 & Ht0 & Hi0).
  set (v0 := after_init env w) in *.
  assert (Hseed :
    scheduled_messages (after_seed env v0) =
      [week_reminder; day_reminder; morning_reminder] /\
    trace (after_seed env v0) =
      trace w ++ [Save [week_reminder];
                  Save [week_reminder; day_reminder];
                  Save [week_reminder; day_reminder; morning_reminder]]).
  { unfold after_seed. rewrite Hi0.
    destruct (after_add_fresh env (wedding_date - days 7) week_message false v0)
      as (Hm1 & Ht1 & _); [now rewrite Hm0|].
    rewrite ?Hm0, ?Ht0 in Hm1, Ht1. cbn [app] in Hm1, Ht1.
    set (v1 := after_add env (wedding_date - days 7) week_message false v0) in *.
    destruct (after_add_fresh env (wedding_date - days 1) day_message false v1)
      as (Hm2 & Ht2 & _); [now rewrite Hm1|].
    rewrite ?Hm1, ?Ht1 in Hm2, Ht2. cbn [app] in Hm2.
    set (v2 := after_add env (wedding_date - days 1) day_message false v1) in *.
    destruct (after_add_fresh env wedding_date morning_message true v2)
      as (Hm3 & Ht3 & _); [now rewrite Hm2|].
    rewrite ?Hm2, ?Ht2 in Hm3, Ht3. cbn [app] in Hm3.
    split; [exact Hm3|]. rewrite Ht3, Ht2, Ht1, Ht0, <- !app_assoc.
    reflexivity. }
  destruct Hseed as [Hm Ht]. set (v := after_seed env v0) in *.
  destruct (reminders_all_due now Hnow) as (D7 & D1 & D0).
  assert (N7 : not_due now week_reminder = false)
    by now rewrite not_due_negb, D7.
  assert (N1 : not_due now day_reminder = false)
    by now rewrite not_due_negb, D1.
  assert (N0 : not_due now morning_reminder = false)
    by now rewrite not_due_negb, D0.
  split; [|split].
  - rewrite after_tick_messages, Hm. cbn [filter]. now rewrite N7, N1, N0.
  - rewrite after_tick_trace, Hm, Ht. cbn [filter existsb].
    rewrite D7, D1, D0, N7, N1, N0. cbn [orb map].
    rewrite <- app_assoc. reflexivity.
  - intros Hdisk. unfold after_tick. rewrite Hm. cbn [existsb].
    rewrite D7. cbn [orb]. unfold after_save. rewrite Hdisk.
    cbn [schedule_file set_schedule_file scheduled_messages
           set_scheduled_messages emit filter].
    now rewrite N7, N1, N0.
Qed.

(** X17.  Once every reminder has been sent the schedule is empty, and an
    empty schedule does not count as seeded.  A process that starts on a
    missing, unreadable or empty schedule file and ticks after the wedding
    morning seeds the three reminders, sends all three (the morning one
    with the keyboard) and leaves the store empty; when its writes reach
    the disk the file then holds the empty schedule, and the next process
    that starts does all of it again: the three reminders go out once
    more. *)
Theorem exhausted_schedule_is_seeded_and_sent_again :
  forall env w now,
    wedding_date <= now ->
    stored_schedule (schedule_file w) = [] ->
    exists w1,
      run (startup ;; check_scheduled_messages now) env w = (Ret tt, w1) /\
      scheduled_messages w1 = [] /\
      trace w1 = trace w ++ seed_and_send_all env /\
      ((forall n, disk_write env n = Written) ->
       schedule_file w1 = Pickled [] /\
       exists w2,
         run (startup ;; check_scheduled_messages now) env w1 = (Ret tt, w2) /\
         scheduled_messages w2 = [] /\
         trace w2 = trace w1 ++ seed_and_send_all env).
Proof.
  intros env w now Hnow Hnone.
  assert (Hrun : forall v,
            run (startup ;; check_scheduled_messages now) env v =
            (Ret tt, after_tick env now (after_seed env (after_init env v)))).
  { intros v. rewrite run_bind, run_startup.
    apply run_check_scheduled_messages. }
  destruct (seed_then_send_all env w now Hnow Hnone) as (Hm & Ht & Hf).
  eexists. split; [apply Hrun|]. split; [exact Hm|]. split; [exact Ht|].
  intros Hdisk. specialize (Hf Hdisk). split; [exact Hf|].
  set (w1 := after_tick env now (after_seed env (after_init env w))) in *.
  assert (Hnone1 : stored_schedule (schedule_file w1) = [])
    by now rewrite Hf.
  destruct (seed_then_send_all env w1 now Hnow Hnone1) as (Hm2 & Ht2 & _).
  eexists. split; [apply Hrun|]. now split.
Qed.

Lemma exhausted_schedule_is_seeded_and_sent_again_witness :
  exists w1 w2,
    run (startup ;; check_scheduled_messages noon) example_env fresh_world
      = (Ret tt, w1) /\
    run (startup ;; check_scheduled_messages noon) example_env w1
      = (Ret tt, w2) /\
    trace w2 = seed_and_send_all example_env ++ seed_and_send_all example_env.
Proof.
  assert (Hnow : wedding_date <= noon) by (vm_compute; discriminate).
  destruct (exhausted_schedule_is_seeded_and_sent_again example_env
              fresh_world noon Hnow eq_refl)
    as (w1 & Hrun1 & _ & Ht1 & Hnext).
  destruct (Hnext (fun _ => eq_refl)) as (_ & w2 & Hrun2 & _ & Ht2).
  exists w1, w2. split; [exact Hrun1|]. split; [exact Hrun2|].
  rewrite Ht2, Ht1. reflexivity.
Defined.
